(** * merge.c: merging MIDI byte streams

    A shallow embedding of [merge.c] (macros, the message-length table,
    [putbyte], [getbyte], [putmsg], the worker loop [run] and the
    supervisor part of [main]) together with the properties of the
    specification that can be settled on it.

    One worker thread is modelled in isolation against the shared output
    state.  The operating system is an explicit part of the state: the
    bytes still to be delivered by the worker's input descriptor, what
    [read] reports once they are used up, and the outcome of each
    successive [write] on the output descriptor.  [pthread_exit] is an
    early exit of the worker's computation.  Taking and releasing a mutex
    is recorded, in the mutex and in the worker's trace of events; waiting
    for a mutex held by another thread is not modelled. *)

From Stdlib Require Import ZArith List Bool Lia String.
Import ListNotations.
Local Open Scope Z_scope.

(** ** Bytes, macros and the message-length table *)

(** A [uint8_t] is a [Z] in 0..255; [u8] is the conversion to [uint8_t]. *)
Definition u8 (z : Z) : Z := z mod 256.

(** A C condition is true when its value is not zero. *)
Definition truthy (z : Z) : bool := negb (z =? 0).

Definition IS_CHANNEL (b : Z) : Z := Z.land b 0x80.
Definition IS_SYSRT (b : Z) : Z := Z.land b 0xF8.
Definition IS_SYSTEM (b : Z) : Z := Z.land b 0xF0.
Definition IS_SOX (b : Z) : bool := b =? 0xF0.
Definition IS_EOX (b : Z) : bool := b =? 0xF7.

Definition MAX_STREAMS : Z := 8.

Definition msglen : list Z :=
  [ 0; 1; 2; 1; 0; 0; 0; 0;     (* system common, low nybble *)
    2; 2; 2; 2; 1; 1; 2; 0 ].   (* channel messages, high nybble *)

(** [msglen[k]] for an index inside the table. *)
Definition msglen_at (k : Z) : Z := nth (Z.to_nat k) msglen 0.

(** [EINVAL] of <errno.h>. *)
Definition EINVAL : Z := 22.

(** ** Structures *)

Record IOStatus := mkIO { retval : Z; error : Z }.

(** [struct _State]: the two mutexes (true when held) and the status byte
    last put on the wire.  The output descriptor [fd] is the [Kernel]'s
    sink below. *)
Record State := mkState { lock : bool; lock_rt : bool; status : Z }.

(** [struct _MIDIStream], without the descriptors and the thread id. *)
Record MIDIStream := mkMSS {
  name : option string;   (* [None] is the null pointer *)
  id : Z;
  done : bool;
  joined : bool;
  io : IOStatus
}.

(** What [read] reports once the input has no more bytes: 0 (end of
    input) or -1 with an [errno]. *)
Inductive rend := Eof | ReadErr (en : Z).

(** Outcome of one [write(fd, &byte, 1)]: 1 (the byte is on the wire),
    0 (nothing written) or -1 with an [errno]. *)
Inductive wres := Wrote | WroteNone | WriteErr (en : Z).

Definition wres_rv (r : wres) : Z :=
  match r with Wrote => 1 | WroteNone => 0 | WriteErr _ => -1 end.

Record Kernel := mkKernel {
  src : list Z;            (* bytes still to come on the worker's input *)
  src_end : rend;          (* what read reports after them *)
  sink_dev : nat -> wres;  (* outcome of the k-th write on the output *)
  nwrites : nat;           (* writes issued so far *)
  sink : list Z;           (* bytes on the wire, oldest first *)
  errno : Z
}.

Inductive mutex := MsgLock | RtLock.

(** The three call sites of [getbyte]: top of the loop in [run], inside
    a system exclusive transfer, and the data loop of [putmsg]. *)
Inductive site := Top | Sox | Data.

Inductive event :=
| EvRead (s : site) (b : Z)
| EvWrite (b : Z) (r : wres)
| EvLock (m : mutex)
| EvUnlock (m : mutex).

Record World := mkWorld {
  mss : MIDIStream;
  global : State;
  os : Kernel;
  trace : list event       (* newest first *)
}.

(** Events in the order they happened. *)
Definition events (w : World) : list event := rev (trace w).

(** ** The worker's computation *)

(** The three places where the worker calls [pthread_exit]. *)
Inductive reason := ReadExit | WriteExit | FramingExit.

Inductive res (A : Type) :=
| Ret (a : A) (w : World)
| Exit (r : reason) (w : World)
| Fuel.
Arguments Ret {A} a w.
Arguments Exit {A} r w.
Arguments Fuel {A}.

Definition M (A : Type) : Type := World -> res A.

Definition ret {A} (a : A) : M A := fun w => Ret a w.

Definition bind {A B} (c : M A) (f : A -> M B) : M B :=
  fun w => match c w with
           | Ret a w' => f a w'
           | Exit r w' => Exit r w'
           | Fuel => Fuel
           end.

Notation "x <- c1 ;; c2" := (bind c1 (fun x => c2))
  (at level 61, c1 at next level, right associativity).
Notation "c1 ;; c2" := (bind c1 (fun _ => c2))
  (at level 61, right associativity).

(** *** State updates *)

Definition log (e : event) (w : World) : World :=
  mkWorld (mss w) (global w) (os w) (e :: trace w).

Definition set_os (k : Kernel) (w : World) : World :=
  mkWorld (mss w) (global w) k (trace w).

Definition set_retval (rv : Z) (w : World) : World :=
  let m := mss w in
  mkWorld (mkMSS (name m) (id m) (done m) (joined m) (mkIO rv (error (io m))))
          (global w) (os w) (trace w).

Definition set_error (e : Z) (w : World) : World :=
  let m := mss w in
  mkWorld (mkMSS (name m) (id m) (done m) (joined m) (mkIO (retval (io m)) e))
          (global w) (os w) (trace w).

Definition set_done (w : World) : World :=
  let m := mss w in
  mkWorld (mkMSS (name m) (id m) true (joined m) (io m))
          (global w) (os w) (trace w).

Definition set_status (s : Z) : M unit := fun w =>
  let g := global w in
  Ret tt (mkWorld (mss w) (mkState (lock g) (lock_rt g) s) (os w) (trace w)).

Definition set_mutex (m : mutex) (held : bool) (g : State) : State :=
  match m with
  | MsgLock => mkState held (lock_rt g) (status g)
  | RtLock => mkState (lock g) held (status g)
  end.

(** [pthread_mutex_lock].  For a worker that runs alone and starts with
    both mutexes free the mutex is free at every call.  On a mutex held by
    another thread the call waits until that thread lets go; the model
    has no wait and goes on at once, which is the run in which the other
    thread lets go.  A worker that waits for ever is not modelled: the
    statements on the way a worker comes to an end take both mutexes free
    at the start. *)
Definition LOCK (m : mutex) : M unit := fun w =>
  Ret tt (log (EvLock m)
            (mkWorld (mss w) (set_mutex m true (global w)) (os w) (trace w))).

Definition UNLOCK (m : mutex) : M unit := fun w =>
  Ret tt (log (EvUnlock m)
            (mkWorld (mss w) (set_mutex m false (global w)) (os w) (trace w))).

(** *** System calls *)

(** [write(fd, &byte, 1)]: the byte reaches the wire exactly when the
    call returns 1; a failing call sets [errno]. *)
Definition sys_write (byte : Z) (k : Kernel) : wres * Kernel :=
  let r := sink_dev k (nwrites k) in
  (r, mkKernel (src k) (src_end k) (sink_dev k) (S (nwrites k))
        (match r with Wrote => sink k ++ [byte] | _ => sink k end)
        (match r with WriteErr en => en | _ => errno k end)).

(** [read(fd, &byte, 1)]: return value, the byte stored, and the kernel
    afterwards. *)
Definition sys_read (k : Kernel) : Z * Z * Kernel :=
  match src k with
  | b :: rest =>
      (1, u8 b,
       mkKernel rest (src_end k) (sink_dev k) (nwrites k) (sink k) (errno k))
  | [] =>
      match src_end k with
      | Eof => (0, 0, k)
      | ReadErr en =>
          (-1, 0,
           mkKernel [] (src_end k) (sink_dev k) (nwrites k) (sink k) en)
      end
  end.

(** *** putbyte and getbyte *)

Definition putbyte (byte : Z) : M unit := fun w =>
  let '(r, k) := sys_write byte (os w) in
  let w1 := set_retval (wres_rv r) (log (EvWrite byte r) (set_os k w)) in
  if negb (wres_rv r =? 0)
  then Exit WriteExit (set_done (set_error (errno k) w1))
  else Ret tt w1.

Definition getbyte (st : site) : M Z := fun w =>
  let '(rv, byte, k) := sys_read (os w) in
  let w1 := set_retval rv (set_os k w) in
  if rv <=? 0
  then Exit ReadExit (set_done (set_error (errno k) w1))
  else Ret byte (log (EvRead st byte) w1).

(** *** putmsg *)

(** The framing abort inside the data loop. *)
Definition incomplete {A} : M A := fun w =>
  Exit FramingExit (set_done (set_retval (-1) (set_error EINVAL w))).

(** [while( i <= count ) { ... }] *)
Fixpoint putmsg_loop (fuel : nat) (i count : Z) : M unit :=
  if i <=? count then
    match fuel with
    | O => fun _ => Fuel
    | S fuel' =>
        byte <- getbyte Data ;;
        if truthy (IS_CHANNEL byte) then incomplete
        else
          putbyte byte ;;
          putmsg_loop fuel' (if negb (truthy (IS_SYSRT byte)) then i + 1 else i)
                      count
    end
  else ret tt.

(** Every turn of the loops below reads one byte, so the bytes left on
    the input bound the number of turns. *)
Definition bounded {A} (loop : nat -> M A) : M A :=
  fun w => loop (S (List.length (src (os w)))) w.

Definition get_status : M Z := fun w => Ret (status (global w)) w.

Definition putmsg (status byte : Z) (count : Z) : M unit :=
  i <- (if byte =? status then
          g <- get_status ;;
          (if negb (g =? status)
           then putbyte byte ;; set_status byte
           else ret tt) ;;
          ret 0
        else
          g <- get_status ;;
          (if negb (g =? status)
           then putbyte status ;; set_status status
           else ret tt) ;;
          putbyte byte ;;
          ret (0 + 1)) ;;
  bounded (fun fuel => putmsg_loop fuel i count).

(** *** run *)

(** [do { putbyte(byte); byte = getbyte(); } while( !IS_EOX(byte) );] *)
Fixpoint sox_loop (fuel : nat) (byte : Z) : M Z :=
  match fuel with
  | O => fun _ => Fuel
  | S fuel' =>
      putbyte byte ;;
      byte' <- getbyte Sox ;;
      if negb (IS_EOX byte') then sox_loop fuel' byte' else ret byte'
  end.

(** The real-time branch of the loop: lines 161-170. *)
Definition realtime (byte : Z) : M unit :=
  LOCK RtLock ;; putbyte byte ;; UNLOCK RtLock.

(** The block under [LOCK(lockp)]: lines 172-199.  It returns the
    worker's [status] and [count] as they are after the block. *)
Definition locked (status count byte : Z) : M (Z * Z) :=
  LOCK MsgLock ;;
  sc <- (if IS_SOX byte then
           LOCK RtLock ;;
           byte' <- bounded (fun fuel => sox_loop fuel byte) ;;
           putbyte byte' ;;
           set_status 0x00 ;;
           UNLOCK RtLock ;;
           ret (status, count)
         else if truthy (IS_SYSTEM byte) then
           let count := msglen_at (Z.land byte 0x0F) in
           putmsg status byte count ;;
           ret (byte, count)
         else if truthy (IS_CHANNEL byte) then
           let count := msglen_at (Z.shiftr byte 4) in
           putmsg status byte count ;;
           ret (byte, count)
         else
           putmsg status byte count ;;
           ret (status, count)) ;;
  UNLOCK MsgLock ;;
  ret sc.

(** One turn of [for(;;)] after its [getbyte]. *)
Definition dispatch (status count byte : Z) : M (Z * Z) :=
  if truthy (IS_SYSRT byte) then
    realtime byte ;; ret (status, count)
  else locked status count byte.

Fixpoint run_loop (fuel : nat) (status count : Z) : M Empty_set :=
  match fuel with
  | O => fun _ => Fuel
  | S fuel' =>
      byte <- getbyte Top ;;
      sc <- dispatch status count byte ;;
      run_loop fuel' (fst sc) (snd sc)
  end.

(** [run]: the worker starts with [status = 0x00]; [count] is not
    initialised in the source, so its first value is a parameter. *)
Definition run (count0 : Z) : M Empty_set :=
  bounded (fun fuel => run_loop fuel 0x00 count0).

(** ** The supervisor: [mss_init] and [main] *)

Inductive oflag := O_RDONLY | O_WRONLY.

(** [mss_init]: open the stream's name, reset its bookkeeping, return
    the descriptor.  [open] is the system call. *)
Definition mss_init (open : option string -> oflag -> Z)
                    (m : MIDIStream) (flags : oflag) : Z * MIDIStream :=
  (open (name m) flags,
   mkMSS (name m) (id m) false false (mkIO 0 0)).

(** How the first part of [main] ends: [exit(code)], a store past the
    end of [mss[MAX_STREAMS]], or the streams ready to be launched. *)
Inductive startup :=
| StartExit (code : Z)
| StartOutOfBounds
| Started (streams : list MIDIStream) (out : Z) (gfd : Z).

(** The loop [for(i = 1; i <= argc; ++i)]; [todo] holds [argv[i]],
    ..., [argv[argc]] and [streams] the entries of [mss] filled so far. *)
Fixpoint init_streams (open : option string -> oflag -> Z) (argc i : Z)
    (todo : list (option string)) (streams : list MIDIStream)
    (out gfd : Z) : startup :=
  match todo with
  | [] => if out =? 0 then StartExit 1 else Started streams out gfd
  | a :: todo' =>
      let j := i - 1 in
      if j >? MAX_STREAMS then StartExit 1
      else if j >=? MAX_STREAMS then StartOutOfBounds
      else
        let m := mkMSS a j false false (mkIO 0 0) in
        if i =? argc then
          let '(fd, m') := mss_init open m O_WRONLY in
          if fd <? 0 then StartExit 1
          else init_streams open argc (i + 1) todo' (streams ++ [m']) j fd
        else
          let '(fd, m') := mss_init open m O_RDONLY in
          if fd <? 0 then StartExit 1
          else init_streams open argc (i + 1) todo' (streams ++ [m']) out gfd
  end.

(** [argv[1]], ..., [argv[argc]], the values the loop goes through: the
    last one is the null pointer that ends every argument vector.  With
    [argc = 0] the loop has nothing to go through. *)
Definition arguments (argv : list string) : list (option string) :=
  match argv with
  | [] => []
  | _ :: rest => map Some rest ++ [None]
  end.

Definition main_startup (open : option string -> oflag -> Z)
                        (argv : list string) : startup :=
  init_streams open (Z.of_nat (List.length argv)) 1 (arguments argv)
               [] 0 (-1).

(** What becomes of a launched worker: the status it records when it
    leaves its loop, and the sweep of the supervisor's polling loop
    from which its [done] flag reads true. *)
Record fate := mkFate { fin_io : IOStatus; fin_at : nat }.

Definition seen (k : nat) (f : fate) (m : MIDIStream) : MIDIStream :=
  if (fin_at f <=? k)%nat
  then mkMSS (name m) (id m) true (joined m) (fin_io f)
  else m.

Definition set_joined (m : MIDIStream) : MIDIStream :=
  mkMSS (name m) (id m) (done m) true (io m).

(** One pass of [for( i = 0; i < out; ++i )] inside [while( !done )]:
    the streams afterwards and the value of [done]. *)
Fixpoint sweep (k : nat) (ws : list (MIDIStream * fate))
  : list (MIDIStream * fate) * bool :=
  match ws with
  | [] => ([], true)
  | (m, f) :: rest =>
      let m := seen k f m in
      let '(rest', d) := sweep k rest in
      if joined m then ((m, f) :: rest', d)
      else if done m then ((set_joined m, f) :: rest', d)
      else ((m, f) :: rest', false)
  end.

Fixpoint reap (fuel k : nat) (ws : list (MIDIStream * fate))
  : option (list (MIDIStream * fate)) :=
  match fuel with
  | O => None
  | S fuel' =>
      let '(ws', d) := sweep k ws in
      if d then Some ws' else reap fuel' (S k) ws'
  end.

Definition last_finish (ws : list (MIDIStream * fate)) : nat :=
  fold_right (fun mf acc => Nat.max (fin_at (snd mf)) acc) O ws.

(** [main] from the launch of the threads on: poll until every stream
    is joined, then run off the end of [main], which makes the exit
    status 0. *)
Definition supervise (ws : list (MIDIStream * fate))
  : option (list MIDIStream * Z) :=
  match reap (S (last_finish ws)) 0 ws with
  | Some ws' => Some (map fst ws', 0)
  | None => None
  end.

(** [main]: [fates] tells what becomes of each launched worker; the
    result is the exit status, when the program has one. *)
Definition main (open : option string -> oflag -> Z) (argv : list string)
                (fates : nat -> fate) : option Z :=
  match main_startup open argv with
  | StartExit code => Some code
  | StartOutOfBounds => None
  | Started streams out _ =>
      match supervise (map (fun m => (m, fates (Z.to_nat (id m))))
                           (firstn (Z.to_nat out) streams)) with
      | Some (_, code) => Some code
      | None => None
      end
  end.

(** * Vocabulary of the statements *)

(** The 256 values of a [uint8_t]. *)
Definition all_bytes : list Z := map Z.of_nat (seq 0 256).

(** A computation keeps the pair [(R, E)] when [R] relates the state
    before to the state after whenever it returns, and [E] relates the
    state before to the state in which the worker left through
    [pthread_exit]. *)
Definition keeps (R : World -> World -> Prop)
    (E : World -> reason -> World -> Prop) {A} (c : M A) : Prop :=
  forall w, match c w with
            | Ret _ w' => R w w'
            | Exit r w' => E w r w'
            | Fuel => True
            end.

(** The kernel after a [write] of [byte] whose outcome is [r]. *)
Definition written (byte : Z) (r : wres) (k : Kernel) : Kernel :=
  mkKernel (src k) (src_end k) (sink_dev k) (S (nwrites k))
    (match r with Wrote => sink k ++ [byte] | _ => sink k end)
    (match r with WriteErr en => en | _ => errno k end).

(** Bytes still to come on the worker's input. *)
Definition src_left (w : World) : nat := List.length (src (os w)).

(** No part of the computation puts bytes back on the input. *)
Definition shrinks (w w' : World) : Prop := (src_left w' <= src_left w)%nat.

Definition any_exit (w : World) (r : reason) (w' : World) : Prop := True.

(** A sink on which every [write] completes its byte, and one on which
    every [write] returns 0. *)
Definition completes : nat -> wres := fun _ => Wrote.
Definition idle : nat -> wres := fun _ => WroteNone.

(** A worker's stream as [mss_init] leaves it, both mutexes free, nothing
    written yet, [errno] zero, and [g] in [global.status]. *)
Definition start_on (g : Z) (bytes : list Z) (e : rend) (dev : nat -> wres)
  : World :=
  mkWorld (mkMSS (Some "in"%string) 0 false false (mkIO 0 0))
          (mkState false false g)
          (mkKernel bytes e dev O [] 0)
          [].

(** The state in which [main] launches a worker: [global.status] is
    0x00. *)
Definition start (bytes : list Z) (e : rend) (dev : nat -> wres) : World :=
  start_on 0x00 bytes e dev.

(** Through which [pthread_exit] a computation left, if it did. *)
Definition exit_reason {A} (r : res A) : option reason :=
  match r with Exit why _ => Some why | _ => None end.

(** The state a computation ends in, returning or leaving. *)
Definition final {A} (r : res A) : option World :=
  match r with Ret _ w | Exit _ w => Some w | Fuel => None end.

(** What a computation did and left behind: exit reason, recorded
    status, [done], bytes on the wire, [global.status], bytes not yet
    read, and the events in order. *)
Definition summary {A} (r : res A) :=
  match final r with
  | Some w =>
      Some (exit_reason r, io (mss w), done (mss w), sink (os w),
            status (global w), src (os w), events w)
  | None => None
  end.

(** A byte with the top bit set read by the data loop of [putmsg]. *)
Definition status_in_data (e : event) : bool :=
  match e with EvRead Data b => 0x80 <=? b | _ => false end.

(** Framing: a part that returns has read no status byte in the data
    loop; the worker leaves with the framing error exactly when it has,
    and then records -1 and [EINVAL]. *)
Definition framing_R (w w' : World) : Prop :=
  exists new, trace w' = new ++ trace w /\ existsb status_in_data new = false.

Definition framing_E (w : World) (r : reason) (w' : World) : Prop :=
  exists new, trace w' = new ++ trace w /\
    (existsb status_in_data new = true <-> r = FramingExit) /\
    (r = FramingExit ->
     io (mss w') = mkIO (-1) EINVAL /\ done (mss w') = true).

(** Reads: the bytes read come from the input, which only gets
    shorter. *)
Definition reads_R (w w' : World) : Prop :=
  incl (src (os w')) (src (os w)) /\
  exists new, trace w' = new ++ trace w /\
    forall st b, In (EvRead st b) new -> In b (map u8 (src (os w))).

Definition reads_E (w : World) (r : reason) (w' : World) : Prop :=
  reads_R w w'.

(** End of input: what [read] will report at the end and [errno] stay as
    they are while the worker runs; a worker that leaves from [getbyte]
    records what [read] reported. *)
Definition read_end_R (w w' : World) : Prop :=
  src_end (os w') = src_end (os w) /\ errno (os w') = errno (os w).

Definition read_end_E (w : World) (r : reason) (w' : World) : Prop :=
  r = ReadExit ->
  src (os w') = [] /\
  done (mss w') = true /\
  io (mss w') = match src_end (os w) with
                | Eof => mkIO 0 (errno (os w))
                | ReadErr en => mkIO (-1) en
                end.

(** The wire: a part that returns has put nothing on it; a worker that
    leaves has put at most one byte on it, and then left from [putbyte]
    with return value 1. *)
Definition wire_R (w w' : World) : Prop := sink (os w') = sink (os w).

Definition wire_E (w : World) (r : reason) (w' : World) : Prop :=
  sink (os w') = sink (os w) \/
  exists b, sink (os w') = sink (os w) ++ [b] /\ r = WriteExit /\
            retval (io (mss w')) = 1.

(** [byte] was handed to [write] among the events [new]. *)
Definition wrote (byte : Z) (new : list event) : Prop :=
  exists r, In (EvWrite byte r) new.

(** The events [new] hand only data bytes to [write]. *)
Definition data_writes (new : list event) : Prop :=
  forall b r, In (EvWrite b r) new -> b < 0x80.

(** What a call of [putmsg] started in [w] does with the status byte
    [s]: [pre] are its events so far. *)
Definition preamble_ok (s : Z) (w : World) (pre : list event) : Prop :=
  (wrote s pre <-> status (global w) <> s) /\
  (In (EvWrite s Wrote) pre <->
   status (global w) <> s /\ sink_dev (os w) (nwrites (os w)) = Wrote).

(** Between [w] and [w'] the events are [new] and fit [preamble_ok]. *)
Definition status_events (s : Z) (w w' : World) : Prop :=
  exists new, trace w' = new ++ trace w /\ preamble_ok s w new.

(** The bytes whose [write] completed among the events [new], oldest
    first. *)
Definition landed (new : list event) : list Z :=
  flat_map (fun e => match e with EvWrite b Wrote => [b] | _ => [] end)
           (rev new).

(** The wire grows by the bytes whose [write] completed, and by nothing
    else. *)
Definition logged (w w' : World) : Prop :=
  exists new, trace w' = new ++ trace w /\
              sink (os w') = sink (os w) ++ landed new.

Definition logged_exit (w : World) (r : reason) (w' : World) : Prop :=
  logged w w'.

(** Between [w] and [w'] the byte [s] was handed to [write] exactly when
    [global.status] was not [s] in [w], and it reached the wire exactly
    when, moreover, the first [write] after [w] completed. *)
Definition sent_iff_stale (s : Z) (w w' : World) : Prop :=
  exists new,
    trace w' = new ++ trace w /\
    sink (os w') = sink (os w) ++ landed new /\
    (wrote s new <-> status (global w) <> s) /\
    (In s (landed new) <->
     status (global w) <> s /\ sink_dev (os w) (nwrites (os w)) = Wrote).

(** What the polling loop maintains for a stream and its fate: a joined
    stream is done, and a done stream carries the status its worker
    recorded. *)
Definition settled (mf : MIDIStream * fate) : Prop :=
  (joined (fst mf) = true -> done (fst mf) = true) /\
  (done (fst mf) = true -> io (fst mf) = fin_io (snd mf)).

(** The fate of a worker that ran by itself and was seen done at once. *)
Definition fate_of (r : res Empty_set) : fate :=
  match final r with
  | Some w => mkFate (io (mss w)) O
  | None => mkFate (mkIO 0 0) O
  end.

(** ** Further vocabulary: the worker as a whole *)



(** The bytes read among the events [new], oldest first. *)
Definition reads (new : list event) : list Z :=
  flat_map (fun e => match e with EvRead _ b => [b] | _ => [] end) (rev new).

(** The input is read in order: the bytes read so far, then the bytes
    still to come, are the input as [uint8_t]s. *)
Definition in_order (w w' : World) : Prop :=
  exists new, trace w' = new ++ trace w /\
              map u8 (src (os w)) = reads new ++ map u8 (src (os w')).

Definition in_order_exit (w : World) (r : reason) (w' : World) : Prop :=
  in_order w w'.

(** The block under the message lock as the bytes 0x00..0x07 find it:
    its last branch, [putmsg] with the worker's status and count. *)
Definition running (status count byte : Z) : M (Z * Z) :=
  LOCK MsgLock ;;
  sc <- (putmsg status byte count ;; ret (status, count)) ;;
  UNLOCK MsgLock ;;
  ret sc.

(** From a state in [P] the computation returns into [Q] or leaves the
    worker in [X]. *)
Definition hoare {A} (P : World -> Prop) (c : M A)
    (Q : A -> World -> Prop) (X : reason -> World -> Prop) : Prop :=
  forall w, P w ->
    match c w with
    | Ret a w' => Q a w'
    | Exit r w' => X r w'
    | Fuel => True
    end.

(** The first [n] arguments are names, not the null pointer. *)
Definition names_first (n : nat) (todo : list (option string)) : Prop :=
  (n <= List.length todo)%nat /\
  Forall (fun a => a <> None) (firstn n todo).

(** Streams that are neither done nor joined, as [mss_init] leaves
    them. *)
Definition fresh (ws : list (MIDIStream * fate)) : Prop :=
  Forall (fun mf => joined (fst mf) = false /\ done (fst mf) = false) ws.

(** The worker of a stream has finished by sweep [k]. *)
Definition finished (k : nat) (mf : MIDIStream * fate) : bool :=
  (fin_at (snd mf) <=? k)%nat.

(** An [open] that refuses the null pointer and the name "missing", and
    gives descriptor 3 for every other name. *)
Definition open_but_missing (a : option string) (fl : oflag) : Z :=
  match a with
  | None => -1
  | Some n => if String.eqb n "missing" then -1 else 3
  end.

(** An [open] that refuses the null pointer only. *)
Definition open_names (a : option string) (fl : oflag) : Z :=
  match a with None => -1 | Some _ => 3 end.

(** No byte was read inside a system exclusive transfer. *)
Definition no_sox (new : list event) : Prop :=
  forall b, ~ In (EvRead Sox b) new.

Definition nosox_R (w w' : World) : Prop :=
  exists new, trace w' = new ++ trace w /\ no_sox new.

Definition nosox_E (w : World) (r : reason) (w' : World) : Prop :=
  nosox_R w w'.

(** [global.status], once 0x00, is 0x00 still. *)
Definition zero_R (w w' : World) : Prop :=
  status (global w) = 0x00 -> status (global w') = 0x00.

Definition zero_E (w : World) (r : reason) (w' : World) : Prop :=
  zero_R w w'.

(** The mutexes are as they were. *)
Definition mutexes_R (w w' : World) : Prop :=
  lock (global w') = lock (global w) /\
  lock_rt (global w') = lock_rt (global w).

Definition mutexes_E (w : World) (r : reason) (w' : World) : Prop :=
  mutexes_R w w'.

(** No mutex is held. *)
Definition free (w : World) : Prop :=
  lock (global w) = false /\ lock_rt (global w) = false.

(** The mutexes a worker holds when it has left: the message lock and
    not the real-time lock after the framing abort, one of the two after
    a write that did not return 0, not the real-time lock after a read
    that gave nothing. *)
Definition held_on_exit (r : reason) (w' : World) : Prop :=
  match r with
  | FramingExit => lock (global w') = true /\ lock_rt (global w') = false
  | WriteExit => xorb (lock (global w')) (lock_rt (global w')) = true
  | ReadExit => lock_rt (global w') = false
  end.

(** Every byte handed to [write] among the events [new], newest first,
    was read before. *)
Fixpoint read_before_written (new : list event) : Prop :=
  match new with
  | [] => True
  | EvWrite b _ :: older =>
      (exists st, In (EvRead st b) older) /\ read_before_written older
  | _ :: older => read_before_written older
  end.

(** Since [w0] the worker has written only what it had read, and
    [global.status] is 0x00; in [fed_with], moreover, it has read [b]. *)
Definition fed (w0 w : World) : Prop :=
  status (global w) = 0x00 /\
  exists new, trace w = new ++ trace w0 /\ read_before_written new.

Definition fed_with (w0 : World) (b : Z) (w : World) : Prop :=
  status (global w) = 0x00 /\
  exists new, trace w = new ++ trace w0 /\ read_before_written new /\
              exists st, In (EvRead st b) new.

Definition fed_exit (w0 : World) (r : reason) (w : World) : Prop :=
  exists new, trace w = new ++ trace w0 /\ read_before_written new.

(** * Properties *)

(** ** Bytes *)

Lemma u8_range (z : Z) : 0 <= u8 z < 256.
Proof. unfold u8. apply Z.mod_pos_bound. lia. Qed.

Lemma in_all_bytes (b : Z) : 0 <= b < 256 -> In b all_bytes.
Proof.
  intros Hb. unfold all_bytes. apply in_map_iff.
  exists (Z.to_nat b). split; [lia|]. apply in_seq. lia.
Qed.

(** A decidable property checked on the 256 bytes holds of every byte. *)
Lemma byte_cases (P : Z -> bool) :
  forallb P all_bytes = true -> forall b, 0 <= b < 256 -> P b = true.
Proof.
  intros H b Hb. rewrite forallb_forall in H. apply H, in_all_bytes, Hb.
Qed.

Lemma IS_CHANNEL_top_bit (b : Z) :
  0 <= b < 256 -> truthy (IS_CHANNEL b) = (0x80 <=? b).
Proof.
  intros Hb.
  apply Bool.eqb_prop.
  change ((fun b => Bool.eqb (truthy (IS_CHANNEL b)) (0x80 <=? b)) b = true).
  revert b Hb. apply byte_cases. vm_compute. reflexivity.
Qed.

Lemma IS_SYSRT_from_8 (b : Z) :
  0 <= b < 256 -> truthy (IS_SYSRT b) = (8 <=? b).
Proof.
  intros Hb.
  apply Bool.eqb_prop.
  change ((fun b => Bool.eqb (truthy (IS_SYSRT b)) (8 <=? b)) b = true).
  revert b Hb. apply byte_cases. vm_compute. reflexivity.
Qed.

Lemma IS_SYSTEM_from_16 (b : Z) :
  0 <= b < 256 -> truthy (IS_SYSTEM b) = (16 <=? b).
Proof.
  intros Hb.
  apply Bool.eqb_prop.
  change ((fun b => Bool.eqb (truthy (IS_SYSTEM b)) (16 <=? b)) b = true).
  revert b Hb. apply byte_cases. vm_compute. reflexivity.
Qed.

(** ** Relational invariants of the worker's computation

    Once the primitive operations keep a pair [(R, E)], so do [putmsg]
    and [run]. *)

Section Keeps.
Variable R : World -> World -> Prop.
Variable E : World -> reason -> World -> Prop.

Hypothesis R_refl : forall w, R w w.
Hypothesis R_trans : forall w1 w2 w3, R w1 w2 -> R w2 w3 -> R w1 w3.
Hypothesis R_E : forall w1 w2 r w3, R w1 w2 -> E w2 r w3 -> E w1 r w3.

Lemma keeps_ret {A} (a : A) : keeps R E (ret a).
Proof. intros w. apply R_refl. Qed.

Lemma keeps_bind {A B} (c : M A) (f : A -> M B) :
  keeps R E c -> (forall a, keeps R E (f a)) -> keeps R E (bind c f).
Proof.
  intros Hc Hf w. unfold bind. specialize (Hc w).
  destruct (c w) as [a w1|r w1|]; auto.
  specialize (Hf a w1). destruct (f a w1); eauto.
Qed.

Lemma keeps_bounded {A} (loop : nat -> M A) :
  (forall fuel, keeps R E (loop fuel)) -> keeps R E (bounded loop).
Proof. intros H w. apply (H _ w). Qed.

Lemma keeps_get_status : keeps R E get_status.
Proof. intros w. apply R_refl. Qed.

Hypothesis K_LOCK : forall m, keeps R E (LOCK m).
Hypothesis K_UNLOCK : forall m, keeps R E (UNLOCK m).
Hypothesis K_set_status : forall s, keeps R E (set_status s).
Hypothesis K_putbyte : forall b, keeps R E (putbyte b).
Hypothesis K_getbyte_top : keeps R E (getbyte Top).
Hypothesis K_getbyte_sox : keeps R E (getbyte Sox).
Hypothesis K_data : forall k : Z -> M unit,
  (forall b, keeps R E (k b)) ->
  keeps R E (byte <- getbyte Data ;;
         if truthy (IS_CHANNEL byte) then incomplete else k byte).

Ltac keep1 :=
  first
    [ apply keeps_ret | apply K_LOCK | apply K_UNLOCK | apply K_set_status
    | apply K_putbyte | apply K_getbyte_top | apply K_getbyte_sox
    | apply keeps_get_status
    | apply keeps_bind; [|intros ?]
    | assumption ].
Ltac keep := repeat keep1.

Lemma keeps_putmsg_loop (fuel : nat) :
  forall i count, keeps R E (putmsg_loop fuel i count).
Proof.
  induction fuel as [|fuel IH]; intros i count; simpl.
  - destruct (i <=? count); [intros w; exact I | apply keeps_ret].
  - destruct (i <=? count); [|apply keeps_ret].
    apply K_data. intros b. keep. apply IH.
Qed.

Lemma keeps_putmsg (status0 byte count : Z) :
  keeps R E (putmsg status0 byte count).
Proof.
  unfold putmsg. apply keeps_bind.
  - destruct (byte =? status0); keep; destruct (negb _); keep.
  - intros i. apply keeps_bounded. intros fuel. apply keeps_putmsg_loop.
Qed.

Lemma keeps_sox_loop (fuel : nat) :
  forall byte, keeps R E (sox_loop fuel byte).
Proof.
  induction fuel as [|fuel IH]; intros byte; simpl.
  - intros w; exact I.
  - keep. destruct (negb _); keep. apply IH.
Qed.

Lemma keeps_realtime (byte : Z) : keeps R E (realtime byte).
Proof. unfold realtime. keep. Qed.

Lemma keeps_locked (status0 count byte : Z) :
  keeps R E (locked status0 count byte).
Proof.
  unfold locked.
  apply keeps_bind; [apply K_LOCK|intros _].
  apply keeps_bind; [|intros sc; keep].
  destruct (IS_SOX byte); [|destruct (truthy _); [|destruct (truthy _)]];
    repeat first [ apply keeps_putmsg
                 | apply keeps_bounded; intros fuel; apply keeps_sox_loop
                 | keep1 ].
Qed.

Lemma keeps_dispatch (status0 count byte : Z) :
  keeps R E (dispatch status0 count byte).
Proof.
  unfold dispatch. destruct (truthy _).
  - apply keeps_bind; [apply keeps_realtime | intros _; apply keeps_ret].
  - apply keeps_locked.
Qed.

Lemma keeps_run_loop (fuel : nat) :
  forall status0 count, keeps R E (run_loop fuel status0 count).
Proof.
  induction fuel as [|fuel IH]; intros status0 count; simpl.
  - intros w; exact I.
  - apply keeps_bind; [apply K_getbyte_top | intros byte].
    apply keeps_bind; [apply keeps_dispatch | intros sc; apply IH].
Qed.

Lemma keeps_run (count0 : Z) : keeps R E (run count0).
Proof.
  unfold run. apply keeps_bounded. intros fuel. apply keeps_run_loop.
Qed.
End Keeps.

(** When [getbyte Data] and the framing abort keep the pair on their own,
    so does the first part of a turn of the data loop. *)
Lemma keeps_data_step (R : World -> World -> Prop)
    (E : World -> reason -> World -> Prop) :
  (forall w1 w2 w3, R w1 w2 -> R w2 w3 -> R w1 w3) ->
  (forall w1 w2 r w3, R w1 w2 -> E w2 r w3 -> E w1 r w3) ->
  keeps R E (getbyte Data) ->
  keeps R E (@incomplete unit) ->
  forall k : Z -> M unit,
    (forall b, keeps R E (k b)) ->
    keeps R E (byte <- getbyte Data ;;
               if truthy (IS_CHANNEL byte) then incomplete else k byte).
Proof.
  intros Ht HE Hg Hi k Hk. apply keeps_bind; auto.
  intros b. destruct (truthy _); auto.
Qed.

(** ** The primitive operations, case by case *)

Lemma getbyte_some (st : site) (w : World) (b : Z) (rest : list Z) :
  src (os w) = b :: rest ->
  getbyte st w =
    Ret (u8 b)
        (log (EvRead st (u8 b))
           (set_retval 1
              (set_os (mkKernel rest (src_end (os w)) (sink_dev (os w))
                         (nwrites (os w)) (sink (os w)) (errno (os w))) w))).
Proof. intros H. unfold getbyte, sys_read. rewrite H. reflexivity. Qed.

Lemma getbyte_eof (st : site) (w : World) :
  src (os w) = [] -> src_end (os w) = Eof ->
  getbyte st w =
    Exit ReadExit (set_done (set_error (errno (os w)) (set_retval 0 w))).
Proof.
  intros H H'. unfold getbyte, sys_read. rewrite H, H'. simpl.
  destruct w as [m g k t]; reflexivity.
Qed.

Lemma getbyte_err (st : site) (w : World) (en : Z) :
  src (os w) = [] -> src_end (os w) = ReadErr en ->
  getbyte st w =
    Exit ReadExit
      (set_done (set_error en
         (set_retval (-1)
            (set_os (mkKernel [] (src_end (os w)) (sink_dev (os w))
                       (nwrites (os w)) (sink (os w)) en) w)))).
Proof. intros H H'. unfold getbyte, sys_read. rewrite H, H'. reflexivity. Qed.

(** The three ways a [getbyte] can go. *)
Lemma getbyte_cases (st : site) (w : World) :
  (exists b rest, src (os w) = b :: rest) \/
  (src (os w) = [] /\ src_end (os w) = Eof) \/
  (exists en, src (os w) = [] /\ src_end (os w) = ReadErr en).
Proof.
  destruct (src (os w)) as [|b rest]; [|left; eauto].
  destruct (src_end (os w)) as [|en]; [right; left; auto|right; right; eauto].
Qed.

Lemma putbyte_unfold (byte : Z) (w : World) :
  let r := sink_dev (os w) (nwrites (os w)) in
  let k := written byte r (os w) in
  let w1 := set_retval (wres_rv r) (log (EvWrite byte r) (set_os k w)) in
  putbyte byte w =
    match r with
    | WroteNone => Ret tt w1
    | _ => Exit WriteExit (set_done (set_error (errno k) w1))
    end.
Proof.
  unfold putbyte, sys_write, written. simpl.
  destruct (sink_dev (os w) (nwrites (os w))); reflexivity.
Qed.

Ltac getbyte_split st w :=
  let b := fresh "b" in
  let rest := fresh "rest" in
  let en := fresh "en" in
  let Hs := fresh "Hsrc" in
  let He := fresh "Hend" in
  destruct (getbyte_cases st w) as [(b & rest & Hs)|[(Hs & He)|(en & Hs & He)]];
  [ rewrite (getbyte_some st w b rest Hs)
  | rewrite (getbyte_eof st w Hs He)
  | rewrite (getbyte_err st w en Hs He) ];
  cbv beta iota.

Ltac putbyte_split byte w :=
  rewrite (putbyte_unfold byte w); cbv zeta;
  destruct (sink_dev (os w) (nwrites (os w))) eqn:?;
  cbv beta iota.

(** ** Termination: the bytes left on the input bound every loop *)

Lemma shrinks_run_parts :
  (forall s c b, keeps shrinks any_exit (dispatch s c b)) /\
  (forall s b c, keeps shrinks any_exit (putmsg s b c)).
Proof.
  assert (Hr : forall w, shrinks w w) by (intros w; unfold shrinks; lia).
  assert (Ht : forall w1 w2 w3, shrinks w1 w2 -> shrinks w2 w3 -> shrinks w1 w3)
    by (unfold shrinks; intros; lia).
  assert (HE : forall w1 w2 r w3,
             shrinks w1 w2 -> any_exit w2 r w3 -> any_exit w1 r w3)
    by (intros; exact I).
  assert (Hput : forall b, keeps shrinks any_exit (putbyte b)).
  { intros b w. putbyte_split b w; try exact I.
    unfold shrinks, src_left; simpl; lia. }
  assert (Hget : forall st, keeps shrinks any_exit (getbyte st)).
  { intros st w. getbyte_split st w; try exact I.
    unfold shrinks, src_left; simpl. rewrite Hsrc; simpl; lia. }
  assert (Hdata : forall k : Z -> M unit,
             (forall b, keeps shrinks any_exit (k b)) ->
             keeps shrinks any_exit
               (byte <- getbyte Data ;;
                if truthy (IS_CHANNEL byte) then incomplete else k byte)).
  { apply keeps_data_step; auto. intros w; exact I. }
  split; intros.
  - apply keeps_dispatch; auto; intros; intros w; unfold shrinks, src_left;
      simpl; try destruct m; simpl; lia.
  - apply keeps_putmsg; auto; intros; intros w; unfold shrinks, src_left;
      simpl; try destruct m; simpl; lia.
Qed.

Lemma putmsg_loop_total (fuel : nat) :
  forall i count w,
    (src_left w < fuel)%nat -> putmsg_loop fuel i count w <> Fuel.
Proof.
  induction fuel as [|fuel IH]; intros i count w Hlt; [lia|].
  simpl. destruct (i <=? count); [|discriminate].
  unfold bind. getbyte_split Data w; try discriminate.
  destruct (truthy _); [discriminate|].
  match goal with |- context [putbyte ?b ?w1] => putbyte_split b w1 end;
    try discriminate.
  apply IH. unfold src_left in *. simpl. rewrite Hsrc in Hlt. simpl in Hlt. lia.
Qed.

Lemma sox_loop_total (fuel : nat) :
  forall byte w, (src_left w < fuel)%nat -> sox_loop fuel byte w <> Fuel.
Proof.
  induction fuel as [|fuel IH]; intros byte w Hlt; [lia|].
  simpl. unfold bind. putbyte_split byte w; try discriminate.
  match goal with |- context [getbyte Sox ?w1] =>
    assert (Hl : src_left w1 = src_left w) by reflexivity;
    getbyte_split Sox w1 end; try discriminate.
  destruct (negb _); [|discriminate].
  apply IH. unfold src_left in *. simpl. simpl in Hsrc.
  rewrite Hsrc in Hlt. simpl in Hlt. lia.
Qed.

Lemma bounded_total {A} (loop : nat -> M A) :
  (forall fuel w, (src_left w < fuel)%nat -> loop fuel w <> Fuel) ->
  forall w, bounded loop w <> Fuel.
Proof. intros H w. apply H. unfold src_left. lia. Qed.

Lemma bind_total {A B} (c : M A) (f : A -> M B) (w : World) :
  c w <> Fuel ->
  (forall a w', c w = Ret a w' -> f a w' <> Fuel) ->
  bind c f w <> Fuel.
Proof.
  intros Hc Hf. unfold bind. destruct (c w) as [a w'|r w'|]; auto.
  discriminate.
Qed.

Lemma putmsg_total (status0 byte count : Z) (w : World) :
  putmsg status0 byte count w <> Fuel.
Proof.
  unfold putmsg. apply bind_total.
  - destruct (byte =? status0); unfold bind, get_status;
      destruct (negb _); unfold bind, ret, set_status;
      repeat match goal with
             | |- context [putbyte ?b ?w1] =>
                 putbyte_split b w1; unfold ret, set_status; simpl
             end; discriminate.
  - intros i w' _. apply bounded_total. intros. now apply putmsg_loop_total.
Qed.

Lemma locked_total (status0 count byte : Z) (w : World) :
  locked status0 count byte w <> Fuel.
Proof.
  unfold locked. apply bind_total; [discriminate|]. intros _ w1 _.
  apply bind_total; [|intros; unfold bind; simpl; discriminate].
  destruct (IS_SOX byte); [|destruct (truthy _); [|destruct (truthy _)]].
  - apply bind_total; [discriminate|]. intros _ w2 _.
    apply bind_total.
    + apply bounded_total. intros. now apply sox_loop_total.
    + intros b w3 _. unfold bind. putbyte_split b w3; simpl; discriminate.
  - apply bind_total; [apply putmsg_total | discriminate].
  - apply bind_total; [apply putmsg_total | discriminate].
  - apply bind_total; [apply putmsg_total | discriminate].
Qed.

Lemma dispatch_total (status0 count byte : Z) (w : World) :
  dispatch status0 count byte w <> Fuel.
Proof.
  unfold dispatch. destruct (truthy _); [|apply locked_total].
  unfold realtime, bind. simpl.
  match goal with |- context [putbyte ?b ?w1] => putbyte_split b w1 end;
    simpl; discriminate.
Qed.

Lemma run_loop_total (fuel : nat) :
  forall status0 count w,
    (src_left w < fuel)%nat -> run_loop fuel status0 count w <> Fuel.
Proof.
  induction fuel as [|fuel IH]; intros status0 count w Hlt; [lia|].
  simpl. unfold bind at 1. getbyte_split Top w; try discriminate.
  match goal with |- context [bind (dispatch ?s ?c ?b) _ ?w1] =>
    pose proof (proj1 shrinks_run_parts s c b w1) as Hsh;
    pose proof (dispatch_total s c b w1) as Htot;
    unfold bind; destruct (dispatch s c b w1) as [sc w2|r w2|]
  end; try discriminate; [|congruence].
  apply IH. unfold shrinks, src_left in *. simpl in Hsh.
  rewrite Hsrc in Hlt. simpl in Hlt. lia.
Qed.

(** The worker always leaves through one of its [pthread_exit]s. *)
Lemma run_exits (count0 : Z) (w : World) :
  exists r w', run count0 w = Exit r w'.
Proof.
  pose proof (bounded_total (fun fuel => run_loop fuel 0 count0)
                (fun fuel w H => run_loop_total fuel 0 count0 w H) w) as H.
  unfold run. destruct (bounded _ w) as [[]|r w'|]; [eauto|congruence].
Qed.

(** ** Invariants of [run] *)

Lemma framing_run (count0 : Z) : keeps framing_R framing_E (run count0).
Proof.
  assert (Hr : forall w, framing_R w w) by (intros w; exists []; auto).
  assert (Ht : forall w1 w2 w3,
             framing_R w1 w2 -> framing_R w2 w3 -> framing_R w1 w3).
  { intros w1 w2 w3 (n1 & H1 & B1) (n2 & H2 & B2). exists (n2 ++ n1).
    rewrite H2, H1, app_assoc, existsb_app, B1, B2. auto. }
  assert (HE : forall w1 w2 r w3,
             framing_R w1 w2 -> framing_E w2 r w3 -> framing_E w1 r w3).
  { intros w1 w2 r w3 (n1 & H1 & B1) (n2 & H2 & B2 & S2). exists (n2 ++ n1).
    rewrite H2, H1, app_assoc, existsb_app, B1, orb_false_r. auto. }
  assert (Hput : forall b, keeps framing_R framing_E (putbyte b)).
  { intros b w. putbyte_split b w; unfold framing_E, framing_R.
    - exists [EvWrite b Wrote]. simpl. repeat split; congruence.
    - exists [EvWrite b WroteNone]. auto.
    - exists [EvWrite b (WriteErr en)]. simpl. repeat split; congruence. }
  assert (Hget : forall st, st <> Data -> keeps framing_R framing_E (getbyte st)).
  { intros st Hst w. getbyte_split st w; unfold framing_E, framing_R.
    - exists [EvRead st (u8 b)]. split; [reflexivity|].
      destruct st; simpl; congruence.
    - exists []. simpl. repeat split; congruence.
    - exists []. simpl. repeat split; congruence. }
  assert (Hlock : forall m, keeps framing_R framing_E (LOCK m))
    by (intros m w; exists [EvLock m]; auto).
  assert (Hunlock : forall m, keeps framing_R framing_E (UNLOCK m))
    by (intros m w; exists [EvUnlock m]; auto).
  assert (Hset : forall s, keeps framing_R framing_E (set_status s))
    by (intros s w; exists []; auto).
  apply keeps_run; auto; try (apply Hget; discriminate).
  intros k Hk w. unfold bind. getbyte_split Data w; try unfold framing_E.
  - pose proof (IS_CHANNEL_top_bit (u8 b) (u8_range b)) as Htop.
    destruct (truthy (IS_CHANNEL (u8 b))).
    + unfold incomplete, framing_E.
      exists [EvRead Data (u8 b)]. simpl. rewrite <- Htop. simpl. tauto.
    + match goal with |- match k ?x ?w1 with _ => _ end =>
          pose proof (Hk x w1) as Hkw;
          assert (H1 : framing_R w w1)
            by (exists [EvRead Data (u8 b)]; simpl; rewrite <- Htop; auto);
          destruct (k x w1) end;
        [eapply Ht; eauto | eapply HE; eauto | exact I].
  - exists []. simpl. repeat split; congruence.
  - exists []. simpl. repeat split; congruence.
Qed.

Lemma reads_run (count0 : Z) : keeps reads_R reads_E (run count0).
Proof.
  assert (Hsame : forall w w' e,
             src (os w') = src (os w) -> trace w' = e :: trace w ->
             (forall st b, e <> EvRead st b) -> reads_R w w').
  { intros w w' e Hs Ht He. split; [rewrite Hs; apply incl_refl|].
    exists [e]. split; [exact Ht|].
    intros st b [H|[]]. destruct (He st b H). }
  assert (Hnone : forall w w',
             src (os w') = src (os w) -> trace w' = trace w -> reads_R w w').
  { intros w w' Hs Ht. split; [rewrite Hs; apply incl_refl|].
    exists []. split; [exact Ht|]. intros st b []. }
  assert (Hr : forall w, reads_R w w) by (intros w; apply Hnone; reflexivity).
  assert (Ht : forall w1 w2 w3, reads_R w1 w2 -> reads_R w2 w3 -> reads_R w1 w3).
  { intros w1 w2 w3 (I1 & n1 & T1 & B1) (I2 & n2 & T2 & B2). split.
    - eapply incl_tran; eauto.
    - exists (n2 ++ n1). split; [rewrite T2, T1, app_assoc; reflexivity|].
      intros st b Hin. apply in_app_or in Hin. destruct Hin as [Hin|Hin].
      + apply B2 in Hin. apply in_map_iff in Hin.
        destruct Hin as (x & Hx & Hin). apply in_map_iff. eauto.
      + eauto. }
  assert (HE : forall w1 w2 r w3,
             reads_R w1 w2 -> reads_E w2 r w3 -> reads_E w1 r w3)
    by (intros w1 w2 r w3; apply Ht).
  assert (Hput : forall b, keeps reads_R reads_E (putbyte b)).
  { intros b w. putbyte_split b w;
      match goal with |- context [EvWrite b ?r] =>
        apply (Hsame _ _ (EvWrite b r)) end;
      try reflexivity; discriminate. }
  assert (Hget : forall st, keeps reads_R reads_E (getbyte st)).
  { intros st w. getbyte_split st w;
      try (apply Hnone; simpl; rewrite ?Hsrc; reflexivity).
    split.
    - simpl. rewrite Hsrc. apply incl_tl, incl_refl.
    - exists [EvRead st (u8 b)]. split; [reflexivity|].
      intros st' b' [H|[]]. inversion H; subst. rewrite Hsrc. left. reflexivity. }
  assert (Hlock : forall m, keeps reads_R reads_E (LOCK m)).
  { intros m w. apply (Hsame _ _ (EvLock m)); try reflexivity. discriminate. }
  assert (Hunlock : forall m, keeps reads_R reads_E (UNLOCK m)).
  { intros m w. apply (Hsame _ _ (EvUnlock m)); try reflexivity. discriminate. }
  assert (Hset : forall s, keeps reads_R reads_E (set_status s))
    by (intros s w; apply Hnone; reflexivity).
  assert (Hstep : forall k : Z -> M unit,
             (forall b, keeps reads_R reads_E (k b)) ->
             keeps reads_R reads_E
               (byte <- getbyte Data ;;
                if truthy (IS_CHANNEL byte) then incomplete else k byte)).
  { apply keeps_data_step; auto. }
  apply keeps_run; auto.
Qed.

Lemma read_end_run (count0 : Z) : keeps read_end_R read_end_E (run count0).
Proof.
  assert (Hdata : keeps read_end_R read_end_E (getbyte Data) /\
                  keeps read_end_R read_end_E (getbyte Top) /\
                  keeps read_end_R read_end_E (getbyte Sox)).
  { repeat split; intros w;
      match goal with |- context [getbyte ?st w] => getbyte_split st w end;
      try (split; reflexivity); intros _; simpl;
      rewrite Hend; auto. }
  destruct Hdata as (Hd & Htop & Hsox).
  assert (Ht : forall w1 w2 w3,
             read_end_R w1 w2 -> read_end_R w2 w3 -> read_end_R w1 w3)
    by (unfold read_end_R; intros w1 w2 w3 [] []; split; congruence).
  assert (HE : forall w1 w2 r w3,
             read_end_R w1 w2 -> read_end_E w2 r w3 -> read_end_E w1 r w3).
  { unfold read_end_R, read_end_E. intros w1 w2 r w3 [H1 H2] H Hr.
    rewrite <- H1, <- H2. auto. }
  assert (Hput : forall b, keeps read_end_R read_end_E (putbyte b)).
  { intros b w. putbyte_split b w; try (intros H; discriminate H).
    split; reflexivity. }
  assert (Hstep : forall k : Z -> M unit,
             (forall b, keeps read_end_R read_end_E (k b)) ->
             keeps read_end_R read_end_E
               (byte <- getbyte Data ;;
                if truthy (IS_CHANNEL byte) then incomplete else k byte)).
  { apply keeps_data_step; auto. intros w H; discriminate H. }
  assert (Hr : forall w, read_end_R w w) by (intros w; split; reflexivity).
  apply keeps_run; auto; intros ? w0; split; reflexivity.
Qed.

(** A worker puts at most one byte on the wire: the [write] that
    completes makes [putbyte] end the thread. *)
Lemma wire_run (count0 : Z) : keeps wire_R wire_E (run count0).
Proof.
  assert (Hget : forall st, keeps wire_R wire_E (getbyte st)).
  { intros st w. getbyte_split st w; try left; reflexivity. }
  assert (Ht : forall w1 w2 w3, wire_R w1 w2 -> wire_R w2 w3 -> wire_R w1 w3)
    by (unfold wire_R; intros; congruence).
  assert (HE : forall w1 w2 r w3,
             wire_R w1 w2 -> wire_E w2 r w3 -> wire_E w1 r w3).
  { unfold wire_R, wire_E. intros w1 w2 r w3 H1 H. rewrite <- H1. exact H. }
  assert (Hput : forall b, keeps wire_R wire_E (putbyte b)).
  { intros b w. putbyte_split b w.
    - right. exists b. simpl. auto.
    - reflexivity.
    - left. reflexivity. }
  assert (Hstep : forall k : Z -> M unit,
             (forall b, keeps wire_R wire_E (k b)) ->
             keeps wire_R wire_E
               (byte <- getbyte Data ;;
                if truthy (IS_CHANNEL byte) then incomplete else k byte)).
  { apply keeps_data_step; auto. intros w. left. reflexivity. }
  assert (Hr : forall w, wire_R w w) by (intros w; reflexivity).
  apply keeps_run; auto; intros ? w0; reflexivity.
Qed.

(** ** Running status in [putmsg] *)

(** The data loop leaves [global.status] alone and writes data bytes
    only. *)
Lemma putmsg_loop_data_writes (fuel : nat) :
  forall i count w,
    match final (putmsg_loop fuel i count w) with
    | Some w' =>
        status (global w') = status (global w) /\
        exists new, trace w' = new ++ trace w /\ data_writes new
    | None => True
    end.
Proof.
  assert (Hnil : data_writes []) by (intros b r []).
  induction fuel as [|fuel IH]; intros i count w; simpl.
  - destruct (i <=? count); simpl; auto. split; auto. exists []. auto.
  - destruct (i <=? count); simpl; [|split; auto; exists []; auto].
    unfold bind. getbyte_split Data w; simpl;
      try (split; auto; exists []; auto).
    pose proof (IS_CHANNEL_top_bit (u8 b) (u8_range b)) as Htop.
    destruct (truthy (IS_CHANNEL (u8 b))).
    + simpl. split; auto. exists [EvRead Data (u8 b)]. split; auto.
      intros b' r [H|[]]; discriminate H.
    + symmetry in Htop. apply Z.leb_gt in Htop.
      match goal with |- context [putbyte ?x ?w1] => putbyte_split x w1 end;
        simpl.
      * split; auto. exists [EvWrite (u8 b) Wrote; EvRead Data (u8 b)].
        split; auto. intros b' r [H|[H|[]]]; inversion H; subst; lia.
      * match goal with |- context [putmsg_loop fuel ?j count ?w2] =>
          specialize (IH j count w2);
          destruct (putmsg_loop fuel j count w2) as [u w3|r w3|] end;
          simpl in *; auto;
          destruct IH as (Hst & new & Htr & Hdw); (split; [exact Hst|]);
          exists (new ++ [EvWrite (u8 b) WroteNone; EvRead Data (u8 b)]);
          (split; [rewrite Htr, <- app_assoc; reflexivity|]);
          intros b' r' Hin; apply in_app_or in Hin;
          destruct Hin as [Hin|[H|[H|[]]]];
          try (inversion H; subst; lia); eapply Hdw; eauto.
      * split; auto. exists [EvWrite (u8 b) (WriteErr en); EvRead Data (u8 b)].
        split; auto. intros b' r [H|[H|[]]]; inversion H; subst; lia.
Qed.

Lemma landed_app (n2 n1 : list event) :
  landed (n2 ++ n1) = landed n1 ++ landed n2.
Proof. unfold landed. rewrite rev_app_distr, flat_map_app. reflexivity. Qed.

Lemma in_landed (s : Z) (new : list event) :
  In s (landed new) <-> In (EvWrite s Wrote) new.
Proof.
  unfold landed. rewrite in_flat_map. split.
  - intros (e & Hin & Hs). apply in_rev in Hin.
    destruct e as [| b [] | |]; simpl in Hs; try tauto.
    destruct Hs as [->|[]]. exact Hin.
  - intros Hin. exists (EvWrite s Wrote). split; [apply in_rev in Hin; exact Hin|].
    left. reflexivity.
Qed.

(** The wire and the events agree, for [putmsg] and for the worker. *)
Lemma logged_parts :
  (forall s b c, keeps logged logged_exit (putmsg s b c)) /\
  (forall count0, keeps logged logged_exit (run count0)).
Proof.
  assert (Hr : forall w, logged w w).
  { intros w. exists []. split; [reflexivity|]. unfold landed. simpl.
    rewrite app_nil_r. reflexivity. }
  assert (Ht : forall w1 w2 w3, logged w1 w2 -> logged w2 w3 -> logged w1 w3).
  { intros w1 w2 w3 (n1 & T1 & S1) (n2 & T2 & S2). exists (n2 ++ n1).
    rewrite T2, T1, S2, S1, landed_app, !app_assoc. auto. }
  assert (HE : forall w1 w2 r w3,
             logged w1 w2 -> logged_exit w2 r w3 -> logged_exit w1 r w3)
    by (intros w1 w2 r w3; apply Ht).
  assert (Hone : forall w w' e,
             trace w' = e :: trace w ->
             sink (os w') = sink (os w) ++ landed [e] -> logged w w')
    by (intros w w' e H1 H2; exists [e]; auto).
  assert (Hlock : forall m, keeps logged logged_exit (LOCK m)).
  { intros m w. apply (Hone _ _ (EvLock m)); [reflexivity|].
    unfold landed. simpl. rewrite app_nil_r. reflexivity. }
  assert (Hunlock : forall m, keeps logged logged_exit (UNLOCK m)).
  { intros m w. apply (Hone _ _ (EvUnlock m)); [reflexivity|].
    unfold landed. simpl. rewrite app_nil_r. reflexivity. }
  assert (Hset : forall s, keeps logged logged_exit (set_status s)).
  { intros s w. exists []. split; [reflexivity|]. unfold landed. simpl.
    rewrite app_nil_r. reflexivity. }
  assert (Hput : forall b, keeps logged logged_exit (putbyte b)).
  { intros b w. putbyte_split b w.
    - apply (Hone _ _ (EvWrite b Wrote)); reflexivity.
    - apply (Hone _ _ (EvWrite b WroteNone)); [reflexivity|].
      unfold landed. simpl. rewrite app_nil_r. reflexivity.
    - apply (Hone _ _ (EvWrite b (WriteErr en))); [reflexivity|].
      unfold landed. simpl. rewrite app_nil_r. reflexivity. }
  assert (Hget : forall st, keeps logged logged_exit (getbyte st)).
  { intros st w. getbyte_split st w.
    - apply (Hone _ _ (EvRead st (u8 b))); [reflexivity|].
      unfold landed. simpl. rewrite app_nil_r. reflexivity.
    - exists []. split; [reflexivity|]. unfold landed. simpl.
      rewrite app_nil_r. reflexivity.
    - exists []. split; [reflexivity|]. unfold landed. simpl.
      rewrite app_nil_r. reflexivity. }
  assert (Hstep : forall k : Z -> M unit,
             (forall b, keeps logged logged_exit (k b)) ->
             keeps logged logged_exit
               (byte <- getbyte Data ;;
                if truthy (IS_CHANNEL byte) then incomplete else k byte)).
  { apply keeps_data_step; auto. }
  split; intros; [apply keeps_putmsg|apply keeps_run]; auto.
Qed.

Lemma preamble_ok_app (s : Z) (w : World) (new pre : list event) :
  0x80 <= s -> data_writes new ->
  preamble_ok s w pre -> preamble_ok s w (new ++ pre).
Proof.
  intros Hs Hdw [H1 H2]. split.
  - rewrite <- H1. unfold wrote. split.
    + intros (r & Hin). apply in_app_or in Hin.
      destruct Hin as [Hin|Hin]; eauto. apply Hdw in Hin. lia.
    + intros (r & Hin). exists r. apply in_or_app. auto.
  - rewrite <- H2. split.
    + intros Hin. apply in_app_or in Hin.
      destruct Hin as [Hin|Hin]; auto. apply Hdw in Hin. lia.
    + intros Hin. apply in_or_app. auto.
Qed.

(** The data loop after a preamble [pre] that left [global.status = s]. *)
Lemma putmsg_tail (s i count : Z) (w0 w : World) (pre : list event) :
  0x80 <= s ->
  trace w = pre ++ trace w0 ->
  status (global w) = s ->
  preamble_ok s w0 pre ->
  match bounded (fun fuel => putmsg_loop fuel i count) w with
  | Ret _ w' => status_events s w0 w' /\ status (global w') = s
  | Exit _ w' => status_events s w0 w'
  | Fuel => False
  end.
Proof.
  intros Hs Htr Hst Hpre.
  pose proof (bounded_total (fun fuel => putmsg_loop fuel i count)
                (fun fuel w H => putmsg_loop_total fuel i count w H) w) as Htot.
  pose proof (putmsg_loop_data_writes (S (List.length (src (os w)))) i count w)
    as Hloop.
  unfold bounded in *.
  destruct (putmsg_loop _ i count w) as [u w'|r w'|]; simpl in Hloop;
    [| |congruence];
    destruct Hloop as (Hst' & new & Htr' & Hdw);
    assert (Hsent : status_events s w0 w')
      by (exists (new ++ pre); split;
          [rewrite Htr', Htr, app_assoc; reflexivity
          |apply preamble_ok_app; assumption]);
    auto.
  split; [exact Hsent|congruence].
Qed.

Ltac preamble :=
  unfold preamble_ok, wrote; simpl;
  repeat split; intros;
  repeat match goal with
         | H : exists _, _ |- _ => destruct H
         | H : _ \/ _ |- _ => destruct H
         | H : _ /\ _ |- _ => destruct H
         | H : False |- _ => destruct H
         | H : EvWrite _ _ = EvWrite _ _ |- _ => inversion H; clear H; subst
         end;
  try congruence; try tauto;
  try (eexists; left; reflexivity);
  try (eexists; right; left; reflexivity);
  try (left; reflexivity).

(** The events of a call of [putmsg]. *)
Lemma putmsg_status_events (s first count : Z) (w : World) :
  0x80 <= s ->
  match putmsg s first count w with
  | Ret _ w' => status_events s w w' /\ status (global w') = s
  | Exit _ w' => status_events s w w'
  | Fuel => False
  end.
Proof.
  intros Hs. unfold putmsg.
  destruct (Z.eqb_spec (status (global w)) s) as [Hg|Hg];
    destruct (Z.eqb_spec first s) as [Hf|Hf];
    unfold bind at 1; unfold bind at 1; unfold get_status at 1;
    cbv beta iota.
  - (* status byte repeated, wire already shows it *)
    rewrite (proj2 (Z.eqb_eq _ _) Hg). cbv beta iota. simpl negb.
    cbv beta iota. unfold ret at 1 2. cbv beta iota.
    apply (putmsg_tail s 0 count w w []); auto. preamble.
  - (* data byte first, wire already shows the status *)
    rewrite (proj2 (Z.eqb_eq _ _) Hg). simpl negb. cbv beta iota.
    unfold bind at 1. unfold ret at 1. cbv beta iota.
    unfold bind at 1. putbyte_split first w.
    + exists [EvWrite first Wrote]. split; [reflexivity|]. preamble.
    + unfold ret at 1. cbv beta iota.
      match goal with |- context [bounded _ ?w1] =>
        apply (putmsg_tail s (0 + 1) count w w1 [EvWrite first WroteNone])
      end; auto. preamble.
    + exists [EvWrite first (WriteErr en)]. split; [reflexivity|]. preamble.
  - (* status byte first, wire shows another status *)
    subst first.
    rewrite (proj2 (Z.eqb_neq _ _) Hg). simpl negb. cbv beta iota.
    unfold bind at 1. unfold bind at 1. putbyte_split s w.
    + exists [EvWrite s Wrote]. split; [reflexivity|]. preamble.
    + unfold set_status at 1. cbv beta iota zeta. unfold ret at 1.
      cbv beta iota.
      match goal with |- context [bounded _ ?w1] =>
        apply (putmsg_tail s 0 count w w1 [EvWrite s WroteNone])
      end; auto. preamble.
    + exists [EvWrite s (WriteErr en)]. split; [reflexivity|]. preamble.
  - (* data byte first, wire shows another status *)
    rewrite (proj2 (Z.eqb_neq _ _) Hg). simpl negb. cbv beta iota.
    unfold bind at 1. unfold bind at 1. putbyte_split s w.
    + exists [EvWrite s Wrote]. split; [reflexivity|]. preamble.
    + unfold set_status at 1. cbv beta iota zeta.
      unfold bind at 1.
      match goal with |- context [putbyte first ?w1] =>
        putbyte_split first w1 end.
      * exists [EvWrite first Wrote; EvWrite s WroteNone].
        split; [reflexivity|]. preamble.
      * unfold ret at 1. cbv beta iota.
        match goal with |- context [bounded _ ?w1] =>
          apply (putmsg_tail s (0 + 1) count w w1
                   [EvWrite first WroteNone; EvWrite s WroteNone])
        end; auto. preamble.
      * exists [EvWrite first (WriteErr en); EvWrite s WroteNone].
        split; [reflexivity|]. preamble.
    + exists [EvWrite s (WriteErr en)]. split; [reflexivity|]. preamble.
Qed.

Lemma status_events_sent (s : Z) (w w' : World) :
  logged w w' -> status_events s w w' -> sent_iff_stale s w w'.
Proof.
  intros (new' & Htr' & Hsink) (new & Htr & Hw & Hl).
  assert (new' = new) as ->
    by (apply (app_inv_tail (trace w)); congruence).
  exists new. rewrite in_landed. auto.
Qed.

(** What putmsg does with its status argument s, whatever byte comes
    with it: s is handed to the sink exactly when global.status differs
    from s at the start of the call; and when the call returns,
    global.status equals s. *)
Lemma putmsg_running_status (s first count : Z) (w : World) :
  0x80 <= s ->
  match putmsg s first count w with
  | Ret _ w' => sent_iff_stale s w w' /\ status (global w') = s
  | Exit _ w' => sent_iff_stale s w w'
  | Fuel => False
  end.
Proof.
  intros Hs.
  pose proof (putmsg_status_events s first count w Hs) as Hev.
  pose proof (proj1 logged_parts s first count w) as Hlog.
  destruct (putmsg s first count w) as [u w'|r w'|]; auto.
  - destruct Hev as [Hev Hst]. split; [|exact Hst].
    now apply status_events_sent.
  - now apply status_events_sent.
Qed.

Lemma putmsg_running_status_witness :
  0x80 <= 0x90 /\
  match putmsg 0x90 0x3C 2 (start [0x7F; 0x40] Eof idle) with
  | Ret _ w' =>
      sent_iff_stale 0x90 (start [0x7F; 0x40] Eof idle) w' /\
      status (global w') = 0x90
  | Exit _ w' => sent_iff_stale 0x90 (start [0x7F; 0x40] Eof idle) w'
  | Fuel => False
  end.
Proof.
  split; [lia|].
  apply (putmsg_running_status 0x90 0x3C 2 (start [0x7F; 0x40] Eof idle)).
  lia.
Defined.

(** The callers in [run] hand [putmsg] the status of the worker's previous
    message.  Here the worker's status is 80, the wire shows 90 and the
    byte read is 90: it is taken for a system message with no data byte,
    the stale 80 is written before it, and [global.status] is left at
    80. *)
Example locked_hands_over_previous_status :
  summary (locked 0x80 2 0x90 (start_on 0x90 [0x3C; 0x7F] Eof idle)) =
  Some (None, mkIO 0 0, false, [], 0x80, [0x3C; 0x7F],
        [EvLock MsgLock; EvWrite 0x80 WroteNone; EvWrite 0x90 WroteNone;
         EvUnlock MsgLock]).
Proof. reflexivity. Qed.

(** C5, at a Note On that follows a Note Off: the worker's previous
    message had status 80, global.status is 90 and the message now read
    starts with 90.  putmsg gets 80 for its status, as run hands it over,
    and does not leave the status byte out although global.status equals
    it: on a sink whose writes return 0 it hands 80, then 90 and two data
    bytes to write, and returns with global.status at 80; on a sink that
    completes its writes the stale 80 reaches the wire and putbyte ends
    the worker there.  And at a first Note On, with 90 for the status of
    putmsg as well: global.status is 00, the write of 90 completes,
    putbyte ends the worker there, and global.status is still 00 with 90
    on the wire. *)
Theorem running_status_not_kept :
  summary (putmsg 0x80 0x90 2 (start_on 0x90 [0x01; 0x02; 0x03] Eof idle)) =
  Some (None, mkIO 0 0, false, [], 0x80, [0x03],
        [EvWrite 0x80 WroteNone; EvWrite 0x90 WroteNone;
         EvRead Data 0x01; EvWrite 0x01 WroteNone;
         EvRead Data 0x02; EvWrite 0x02 WroteNone]) /\
  summary (putmsg 0x80 0x90 2 (start_on 0x90 [0x01; 0x02; 0x03] Eof completes)) =
  Some (Some WriteExit, mkIO 1 0, true, [0x80], 0x90, [0x01; 0x02; 0x03],
        [EvWrite 0x80 Wrote]) /\
  summary (putmsg 0x90 0x90 2 (start [0x3C; 0x7F] Eof completes)) =
  Some (Some WriteExit, mkIO 1 0, true, [0x90], 0x00, [0x3C; 0x7F],
        [EvWrite 0x90 Wrote]).
Proof. repeat split; reflexivity. Qed.

(** ** Framing errors *)

Lemma existsb_status_in_data (new : list event) :
  existsb status_in_data new = true <->
  exists b, 0x80 <= b /\ In (EvRead Data b) new.
Proof.
  rewrite existsb_exists. split.
  - intros (e & Hin & He). destruct e as [[] b| | |]; try discriminate.
    exists b. split; [apply Z.leb_le; exact He|exact Hin].
  - intros (b & Hb & Hin). exists (EvRead Data b). split; [exact Hin|].
    apply Z.leb_le. exact Hb.
Qed.

(** C6, as stated, fails: a worker without an established status whose
    input starts with a data byte does not end with the framing error.
    With 3C 7F it ends in putbyte when the write completes, and at the end
    of its input when the writes return 0; with 05 06 the bytes go through
    putmsg and the worker ends at the end of its input. *)
Lemma leading_data_byte_is_not_framing :
  exit_reason (run 0 (start [0x3C; 0x7F] Eof completes)) = Some WriteExit /\
  exit_reason (run 0 (start [0x3C; 0x7F] Eof idle)) = Some ReadExit /\
  exit_reason (run 0 (start [0x05; 0x06] Eof completes)) = Some WriteExit /\
  exit_reason (run 0 (start [0x05; 0x06] Eof idle)) = Some ReadExit.
Proof. repeat split; reflexivity. Qed.

(** X7: an input made of data bytes only never ends with the
    framing error. *)
Lemma data_only_input_never_framing (count0 : Z) (w : World) :
  Forall (fun b => u8 b < 0x80) (src (os w)) ->
  exists r w', run count0 w = Exit r w' /\ r <> FramingExit.
Proof.
  intros Hdata.
  destruct (run_exits count0 w) as (r & w' & Hrun).
  pose proof (framing_run count0 w) as Hf. rewrite Hrun in Hf.
  pose proof (reads_run count0 w) as Hrd. rewrite Hrun in Hrd.
  destruct Hf as (new & Htr & Hiff & _).
  destruct Hrd as (_ & new' & Htr' & Hin).
  assert (new' = new) as -> by (apply (app_inv_tail (trace w)); congruence).
  exists r, w'. split; [exact Hrun|]. intros Hr.
  apply Hiff, existsb_status_in_data in Hr. destruct Hr as (b & Hb & Hrd).
  apply Hin, in_map_iff in Hrd. destruct Hrd as (x & Hx & Hsrc).
  rewrite Forall_forall in Hdata. apply Hdata in Hsrc. lia.
Qed.

(** A framing error as the code has it: a status byte inside a message. *)
Example framing_inside_message :
  summary (run 1 (start [0x05; 0x90] Eof idle)) =
  Some (Some FramingExit, mkIO (-1) EINVAL, true, [], 0x00, [],
        [EvRead Top 0x05; EvLock MsgLock; EvWrite 0x05 WroteNone;
         EvRead Data 0x90]).
Proof. reflexivity. Qed.

(** The worker that leaves with the framing error holds the message
    lock, and keeps it. *)
Example framing_exit_holds_message_lock :
  match final (run 1 (start [0x05; 0x90] Eof idle)) with
  | Some w => lock (global w) = true
  | None => False
  end.
Proof. reflexivity. Qed.

(** ** End of input *)

(** A worker stops at the end of its input exactly as it was initialised,
    but for [done]; a failing read (here EIO, 5) leaves its mark. *)
Example end_of_input_after_realtime :
  summary (run 0 (start [0xF8; 0xFA] Eof idle)) =
  Some (Some ReadExit, mkIO 0 0, true, [], 0x00, [],
        [EvRead Top 0xF8; EvLock RtLock; EvWrite 0xF8 WroteNone;
         EvUnlock RtLock;
         EvRead Top 0xFA; EvLock RtLock; EvWrite 0xFA WroteNone;
         EvUnlock RtLock]).
Proof. reflexivity. Qed.

Example read_error_recorded :
  summary (run 0 (start [] (ReadErr 5) completes)) =
  Some (Some ReadExit, mkIO (-1) 5, true, [], 0x00, [], []).
Proof. reflexivity. Qed.

(** ** What the top of the loop takes for real time *)

(** The real-time branch is taken from byte 0x08 on. *)
Lemma dispatch_from_8 (status0 count b : Z) :
  8 <= b < 256 ->
  dispatch status0 count b = (realtime b ;; ret (status0, count)).
Proof.
  intros Hb. unfold dispatch.
  rewrite IS_SYSRT_from_8 by lia.
  destruct (Z.leb_spec 8 b); [reflexivity|lia].
Qed.

(** Only the bytes 0x00..0x07 reach the block under the message lock, and
    there they take its last branch: the worker's status and count stay as
    they are. *)
Lemma dispatch_below_8 (status0 count b : Z) :
  0 <= b < 8 ->
  dispatch status0 count b =
  (LOCK MsgLock ;;
   sc <- (putmsg status0 b count ;; ret (status0, count)) ;;
   UNLOCK MsgLock ;; ret sc).
Proof.
  intros Hb. unfold dispatch, locked.
  rewrite IS_SYSRT_from_8, IS_SYSTEM_from_16, IS_CHANNEL_top_bit by lia.
  unfold IS_SOX.
  destruct (Z.leb_spec 8 b); [lia|].
  destruct (Z.eqb_spec b 240); [lia|].
  destruct (Z.leb_spec 16 b); [lia|].
  destruct (Z.leb_spec 128 b); [lia|].
  reflexivity.
Qed.

(** C1, at a Note On: the status byte 0x90 is outside 0xF8..0xFF, yet the
    top of the loop handles it as a real-time byte.  It is written on its
    own under the real-time lock, the message lock is not taken, and
    global.status and the worker's status stay as they were; the two data
    bytes that follow are handled the same way. *)
Theorem note_on_taken_for_realtime :
  ~ (0xF8 <= 0x90 <= 0xFF) /\
  (forall status0 count,
     dispatch status0 count 0x90 = (realtime 0x90 ;; ret (status0, count))) /\
  (forall count0,
     summary (run count0 (start [0x90; 0x3C; 0x7F] Eof idle)) =
     Some (Some ReadExit, mkIO 0 0, true, [], 0x00, [],
           [EvRead Top 0x90; EvLock RtLock; EvWrite 0x90 WroteNone;
            EvUnlock RtLock;
            EvRead Top 0x3C; EvLock RtLock; EvWrite 0x3C WroteNone;
            EvUnlock RtLock;
            EvRead Top 0x7F; EvLock RtLock; EvWrite 0x7F WroteNone;
            EvUnlock RtLock])) /\
  (forall count0,
     summary (run count0 (start [0x90; 0x3C; 0x7F] Eof completes)) =
     Some (Some WriteExit, mkIO 1 0, true, [0x90], 0x00, [0x3C; 0x7F],
           [EvRead Top 0x90; EvLock RtLock; EvWrite 0x90 Wrote])).
Proof.
  split; [lia|]. split; [reflexivity|]. split; reflexivity.
Qed.

(** ** System exclusive *)

(** C2, at the identity request F0 7E 00 06 01 F7: the byte F0 is taken
    for a real-time byte, so the transfer is not made under the two locks.
    On a sink that completes its writes the worker writes F0 and ends at
    once, reading nothing more.  On a sink whose writes return 0 each byte
    is handled on its own: 7E and F7 as real-time bytes, 06 and 01 through
    putmsg, and 00 is never written, being equal to the worker's
    status. *)
Theorem sysex_not_transferred :
  (forall count0,
     summary (run count0 (start [0xF0; 0x7E; 0x00; 0x06; 0x01; 0xF7]
                            Eof completes)) =
     Some (Some WriteExit, mkIO 1 0, true, [0xF0], 0x00,
           [0x7E; 0x00; 0x06; 0x01; 0xF7],
           [EvRead Top 0xF0; EvLock RtLock; EvWrite 0xF0 Wrote])) /\
  summary (run 0 (start [0xF0; 0x7E; 0x00; 0x06; 0x01; 0xF7] Eof idle)) =
  Some (Some ReadExit, mkIO 0 0, true, [], 0x00, [],
        [EvRead Top 0xF0; EvLock RtLock; EvWrite 0xF0 WroteNone;
         EvUnlock RtLock;
         EvRead Top 0x7E; EvLock RtLock; EvWrite 0x7E WroteNone;
         EvUnlock RtLock;
         EvRead Top 0x00; EvLock MsgLock; EvRead Data 0x06;
         EvWrite 0x06 WroteNone; EvUnlock MsgLock;
         EvRead Top 0x01; EvLock MsgLock; EvWrite 0x01 WroteNone;
         EvUnlock MsgLock;
         EvRead Top 0xF7; EvLock RtLock; EvWrite 0xF7 WroteNone;
         EvUnlock RtLock]).
Proof. split; reflexivity. Qed.

(** With the count 2 left in the worker's [count], the same input on the
    same sink ends with the framing error: 00 opens a message through
    putmsg, whose data loop takes 06 and 01 and then meets F7. *)
Example sysex_with_count_two :
  summary (run 2 (start [0xF0; 0x7E; 0x00; 0x06; 0x01; 0xF7] Eof idle)) =
  Some (Some FramingExit, mkIO (-1) EINVAL, true, [], 0x00, [],
        [EvRead Top 0xF0; EvLock RtLock; EvWrite 0xF0 WroteNone;
         EvUnlock RtLock;
         EvRead Top 0x7E; EvLock RtLock; EvWrite 0x7E WroteNone;
         EvUnlock RtLock;
         EvRead Top 0x00; EvLock MsgLock;
         EvRead Data 0x06; EvWrite 0x06 WroteNone;
         EvRead Data 0x01; EvWrite 0x01 WroteNone;
         EvRead Data 0xF7]).
Proof. reflexivity. Qed.

(** The branch for F0 under the message lock does make the transfer, but
    no byte read at the top of the loop reaches it. *)
Example sysex_branch_alone :
  summary (locked 0x90 2 0xF0
             (start [0x7E; 0x00; 0x06; 0x01; 0xF7; 0x3C] Eof idle)) =
  Some (None, mkIO 0 0, false, [], 0x00, [0x3C],
        [EvLock MsgLock; EvLock RtLock; EvWrite 0xF0 WroteNone;
         EvRead Sox 0x7E; EvWrite 0x7E WroteNone;
         EvRead Sox 0x00; EvWrite 0x00 WroteNone;
         EvRead Sox 0x06; EvWrite 0x06 WroteNone;
         EvRead Sox 0x01; EvWrite 0x01 WroteNone;
         EvRead Sox 0xF7; EvWrite 0xF7 WroteNone;
         EvUnlock RtLock; EvUnlock MsgLock]).
Proof. reflexivity. Qed.

(** ** The data bytes of a message *)


(** C3, at a Note On: the table gives two data bytes, and putmsg reads and
    writes three (01 02 03), the loop running while i <= count.  Data bytes
    from 0x08 on are not counted at all, so with 3C 7F 40 7F the loop goes
    on to the end of the input. *)
Theorem putmsg_reads_one_byte_too_many :
  msglen_at (Z.shiftr 0x90 4) = 2 /\
  summary (putmsg 0x90 0x90 (msglen_at (Z.shiftr 0x90 4))
             (start [0x01; 0x02; 0x03; 0x04] Eof idle)) =
  Some (None, mkIO 0 0, false, [], 0x90, [0x04],
        [EvWrite 0x90 WroteNone;
         EvRead Data 0x01; EvWrite 0x01 WroteNone;
         EvRead Data 0x02; EvWrite 0x02 WroteNone;
         EvRead Data 0x03; EvWrite 0x03 WroteNone]) /\
  summary (putmsg 0x90 0x90 (msglen_at (Z.shiftr 0x90 4))
             (start [0x3C; 0x7F; 0x40; 0x7F] Eof idle)) =
  Some (Some ReadExit, mkIO 0 0, true, [], 0x90, [],
        [EvWrite 0x90 WroteNone;
         EvRead Data 0x3C; EvWrite 0x3C WroteNone;
         EvRead Data 0x7F; EvWrite 0x7F WroteNone;
         EvRead Data 0x40; EvWrite 0x40 WroteNone;
         EvRead Data 0x7F; EvWrite 0x7F WroteNone]).
Proof. repeat split; reflexivity. Qed.

(** ** Real-time bytes inside a message, and the wire *)

(** Whatever the sink does, a worker leaves at most one more byte on the
    wire than it found there. *)
Lemma run_wire_at_most_one (count0 : Z) (w : World) :
  exists r w',
    run count0 w = Exit r w' /\
    (List.length (sink (os w')) <= S (List.length (sink (os w))))%nat.
Proof.
  destruct (run_exits count0 w) as (r & w' & Hrun).
  pose proof (wire_run count0 w) as H. rewrite Hrun in H.
  exists r, w'. split; [exact Hrun|].
  destruct H as [H|(b & H & _)]; rewrite H; [lia|].
  rewrite length_app. simpl. lia.
Qed.

(** C4, at the Control Change B0 07 F8 64: inside putmsg the byte F8 has the
    top bit set, so the data loop takes it for the start of another
    message and ends the worker with the framing error, F8 unwritten.
    And the worker fed B0 07 F8 64 never produces B0 07 F8 64, whatever
    the sink does: it writes B0 as a real-time byte and, when that write
    completes, ends at once. *)
Theorem realtime_inside_message_aborts :
  summary (putmsg 0xB0 0xB0 (msglen_at (Z.shiftr 0xB0 4))
             (start [0x07; 0xF8; 0x64] Eof idle)) =
  Some (Some FramingExit, mkIO (-1) EINVAL, true, [], 0xB0, [0x64],
        [EvWrite 0xB0 WroteNone; EvRead Data 0x07; EvWrite 0x07 WroteNone;
         EvRead Data 0xF8]) /\
  (forall count0,
     summary (run count0 (start [0xB0; 0x07; 0xF8; 0x64] Eof completes)) =
     Some (Some WriteExit, mkIO 1 0, true, [0xB0], 0x00, [0x07; 0xF8; 0x64],
           [EvRead Top 0xB0; EvLock RtLock; EvWrite 0xB0 Wrote])) /\
  (forall count0 dev,
     exists r w',
       run count0 (start [0xB0; 0x07; 0xF8; 0x64] Eof dev) = Exit r w' /\
       sink (os w') <> [0xB0; 0x07; 0xF8; 0x64]).
Proof.
  split; [reflexivity|]. split; [reflexivity|].
  intros count0 dev.
  destruct (run_wire_at_most_one count0
              (start [0xB0; 0x07; 0xF8; 0x64] Eof dev)) as (r & w' & Hrun & Hlen).
  exists r, w'. split; [exact Hrun|].
  intros Heq. rewrite Heq in Hlen. simpl in Hlen. lia.
Qed.

(** ** putbyte *)

(** C7, at a write that completes its byte: putbyte takes the return value
    1 for a failure.  The byte is on the wire, and the worker is ended
    with retval 1 and whatever errno holds.  putbyte returns to its caller
    only when write returned 0, with nothing written. *)
Theorem putbyte_ends_worker_on_completed_write (byte : Z) (w : World) :
  match sink_dev (os w) (nwrites (os w)) with
  | Wrote =>
      exists w', putbyte byte w = Exit WriteExit w' /\
                 sink (os w') = sink (os w) ++ [byte] /\
                 io (mss w') = mkIO 1 (errno (os w)) /\
                 done (mss w') = true
  | WroteNone =>
      exists w', putbyte byte w = Ret tt w' /\
                 sink (os w') = sink (os w) /\
                 done (mss w') = done (mss w)
  | WriteErr en =>
      exists w', putbyte byte w = Exit WriteExit w' /\
                 sink (os w') = sink (os w) /\
                 io (mss w') = mkIO (-1) en /\
                 done (mss w') = true
  end.
Proof.
  rewrite (putbyte_unfold byte w). cbv zeta.
  destruct (sink_dev (os w) (nwrites (os w))); eexists; repeat split.
Qed.

Example putbyte_completed_write :
  summary (putbyte 0xF8 (start [] Eof completes)) =
  Some (Some WriteExit, mkIO 1 0, true, [0xF8], 0x00, [],
        [EvWrite 0xF8 Wrote]).
Proof. reflexivity. Qed.

(** ** The worker's status across a system exclusive transfer *)

(** C10, at F0 7E F7 3C: the data byte 3C that follows the transfer is not
    framed through putmsg with the worker's status.  From 0x08 on a byte is
    taken for a real-time byte at the top of the loop, whatever the
    worker's status, and written under the real-time lock alone.  The
    block under the message lock, given 3C, would take it for a system
    message and make it the worker's status.  The worker's status is left
    alone by the branch for F0. *)
Theorem data_byte_after_sysex_not_continued :
  (forall count0,
     summary (run count0 (start [0xF0; 0x7E; 0xF7; 0x3C] Eof idle)) =
     Some (Some ReadExit, mkIO 0 0, true, [], 0x00, [],
           [EvRead Top 0xF0; EvLock RtLock; EvWrite 0xF0 WroteNone;
            EvUnlock RtLock;
            EvRead Top 0x7E; EvLock RtLock; EvWrite 0x7E WroteNone;
            EvUnlock RtLock;
            EvRead Top 0xF7; EvLock RtLock; EvWrite 0xF7 WroteNone;
            EvUnlock RtLock;
            EvRead Top 0x3C; EvLock RtLock; EvWrite 0x3C WroteNone;
            EvUnlock RtLock])) /\
  (forall status0 count,
     dispatch status0 count 0x3C = (realtime 0x3C ;; ret (status0, count))) /\
  (forall status0 count,
     locked status0 count 0x3C =
     (LOCK MsgLock ;;
      sc <- (putmsg status0 0x3C 1 ;; ret (0x3C, 1)) ;;
      UNLOCK MsgLock ;; ret sc)) /\
  (forall status0 count w,
     match locked status0 count 0xF0 w with
     | Ret sc _ => sc = (status0, count)
     | _ => True
     end).
Proof.
  split; [reflexivity|]. split; [reflexivity|]. split; [reflexivity|].
  intros status0 count w. unfold locked, bind. simpl.
  match goal with |- context [bounded ?l ?w1] => destruct (bounded l w1) end;
    auto.
  match goal with |- context [putbyte ?b ?w1] => putbyte_split b w1 end;
    simpl; auto.
Qed.

(** ** The supervisor *)

Lemma sweep_spec (k : nat) (ws : list (MIDIStream * fate)) :
  map snd (fst (sweep k ws)) = map snd ws /\
  (snd (sweep k ws) = true ->
   Forall (fun mf => joined (fst mf) = true) (fst (sweep k ws))) /\
  ((last_finish ws <= k)%nat -> snd (sweep k ws) = true) /\
  (Forall settled ws -> Forall settled (fst (sweep k ws))).
Proof.
  induction ws as [|[m f] ws IH]; simpl.
  - repeat split; auto.
  - destruct IH as (IHf & IHj & IHd & IHs).
    destruct (sweep k ws) as [rest d]. simpl in *.
    unfold seen.
    destruct (Nat.leb_spec (fin_at f) k) as [Hk|Hk]; simpl.
    + destruct (joined m) eqn:Hj; simpl.
      * repeat split; try congruence.
        -- intros Hd. constructor; auto.
        -- intros Hl. apply IHd. lia.
        -- intros Hall. inversion Hall; subst. constructor; auto.
           split; simpl; auto.
      * repeat split; try congruence.
        -- intros Hd. constructor; auto.
        -- intros Hl. apply IHd. lia.
        -- intros Hall. inversion Hall; subst. constructor; auto.
           split; simpl; auto.
    + destruct (joined m) eqn:Hj; simpl; [|destruct (done m) eqn:Hdn; simpl].
      * repeat split; try congruence.
        -- intros Hd. constructor; auto.
        -- intros Hl. lia.
        -- intros Hall. inversion Hall; subst. constructor; auto.
      * repeat split; try congruence.
        -- intros Hd. constructor; auto.
        -- intros Hl. lia.
        -- intros Hall. inversion Hall as [|? ? [H1 H2] Hrest]; subst.
           constructor; auto. split; simpl; auto.
      * repeat split; try congruence.
        -- intros Hl. lia.
        -- intros Hall. inversion Hall; subst. constructor; auto.
Qed.

Lemma last_finish_fates (ws ws' : list (MIDIStream * fate)) :
  map snd ws' = map snd ws -> last_finish ws' = last_finish ws.
Proof.
  revert ws'. induction ws as [|mf ws IH]; intros [|mf' ws'] H;
    try discriminate; simpl; auto.
  simpl in H. inversion H as [[H1 H2]]. rewrite H1, (IH ws' H2). reflexivity.
Qed.

Lemma reap_spec (fuel : nat) :
  forall k ws,
    (0 < fuel)%nat -> (last_finish ws < k + fuel)%nat ->
    exists ws',
      reap fuel k ws = Some ws' /\
      map snd ws' = map snd ws /\
      Forall (fun mf => joined (fst mf) = true) ws' /\
      (Forall settled ws -> Forall settled ws').
Proof.
  induction fuel as [|fuel IH]; intros k ws Hpos Hlt; [lia|].
  simpl. destruct (sweep_spec k ws) as (Hf & Hj & Hd & Hs).
  destruct (sweep k ws) as [ws1 d]. simpl in *.
  destruct d.
  - exists ws1. auto.
  - assert (Hk : (k < last_finish ws)%nat).
    { destruct (Nat.le_gt_cases (last_finish ws) k) as [H|H]; auto.
      apply Hd in H. discriminate. }
    destruct (IH (S k) ws1) as (ws' & Hr & Hf' & Hj' & Hs').
    + lia.
    + rewrite (last_finish_fates ws ws1 Hf). lia.
    + exists ws'. repeat split; auto. congruence.
Qed.

(** The polling loop and the end of [main], from whichever workers were
    launched: once every worker has been reaped the exit status is 0,
    whatever statuses the workers recorded; each stream is joined and
    still carries the status of its worker, which nothing reads. *)
Lemma reaped_exit_status_is_zero (ws : list (MIDIStream * fate)) :
  exists ms,
    supervise ws = Some (ms, 0) /\
    Forall (fun m => joined m = true) ms /\
    (Forall (fun mf => joined (fst mf) = false /\ done (fst mf) = false) ws ->
     map io ms = map (fun mf => fin_io (snd mf)) ws).
Proof.
  unfold supervise.
  destruct (reap_spec (S (last_finish ws)) 0 ws) as (ws' & Hr & Hf & Hj & Hs);
    [lia|lia|].
  rewrite Hr. exists (map fst ws'). split; [reflexivity|]. split.
  - rewrite Forall_map. exact Hj.
  - intros Hinit.
    assert (Hset : Forall settled ws').
    { apply Hs. eapply Forall_impl; [|exact Hinit].
      intros mf [H1 H2]. split; congruence. }
    clear Hr Hs Hinit. revert ws' Hf Hj Hset.
    induction ws as [|mf ws IH]; intros [|mf' ws'] Hf Hj Hset;
      try discriminate; auto.
    simpl in *. inversion Hf as [[H1 H2]].
    inversion Hj as [|? ? Hj1 Hj2]; inversion Hset as [|? ? [Hs1 Hs2] Hs3];
      subst.
    rewrite (IH ws' H2 Hj2 Hs3), Hs2; auto.
Qed.

(** The polling loop over one worker whose read fails at once with EIO
    (5): the worker records retval -1 and error 5, and once it is reaped
    the exit status is 0. *)
Example polling_ignores_failed_worker :
  supervise [(mkMSS (Some "in"%string) 0 false false (mkIO 0 0),
              fate_of (run 0 (start [] (ReadErr 5) completes)))] =
  Some ([mkMSS (Some "in"%string) 0 true true (mkIO (-1) 5)], 0).
Proof. reflexivity. Qed.

(** As [main] is written its first loop runs up to [argv[argc]], the null
    pointer: when [open] refuses it, [main] ends with [exit(1)] (or stores
    past the end of [mss]) before any worker is launched. *)
Lemma init_streams_null (open : option string -> oflag -> Z) (argc : Z) :
  (forall fl, open None fl < 0) ->
  forall todo i streams out gfd,
    match init_streams open argc i (todo ++ [None]) streams out gfd with
    | StartExit code => code = 1
    | StartOutOfBounds => True
    | Started _ _ _ => False
    end.
Proof.
  intros Hnull. induction todo as [|a todo IH]; intros i streams out gfd; simpl.
  - destruct (i - 1 >? MAX_STREAMS); auto.
    destruct (i - 1 >=? MAX_STREAMS); auto.
    destruct (i =? argc); simpl.
    + pose proof (Hnull O_WRONLY) as H. apply Z.ltb_lt in H. rewrite H. auto.
    + pose proof (Hnull O_RDONLY) as H. apply Z.ltb_lt in H. rewrite H. auto.
  - destruct (i - 1 >? MAX_STREAMS); auto.
    destruct (i - 1 >=? MAX_STREAMS); auto.
    destruct (i =? argc); simpl;
      match goal with |- context [?fd <? 0] => destruct (fd <? 0) end;
      auto; apply IH.
Qed.

Lemma main_never_launches (open : option string -> oflag -> Z)
                          (argv : list string) (fates : nat -> fate) :
  (forall fl, open None fl < 0) ->
  main open argv fates = Some 1 \/ main open argv fates = None.
Proof.
  intros Hnull. unfold main, main_startup, arguments.
  destruct argv as [|prog rest]; [left; reflexivity|].
  pose proof (init_streams_null open (Z.of_nat (List.length (prog :: rest)))
                Hnull (map Some rest) 1 [] 0 (-1)) as H.
  destruct (init_streams _ _ _ _ _ _ _); [left; congruence|right; auto|tauto].
Qed.

(** * Further properties of the worker *)

(** ** How a worker ends *)



(** X2: the worker leaves at most one byte on the wire.  When it leaves one,
    that was its last act: it left from putbyte with return value 1. *)
Theorem worker_writes_at_most_one_byte (count0 : Z) (w : World) :
  exists r w',
    run count0 w = Exit r w' /\
    (sink (os w') = sink (os w) \/
     exists b, sink (os w') = sink (os w) ++ [b] /\
               r = WriteExit /\ retval (io (mss w')) = 1).
Proof.
  destruct (run_exits count0 w) as (r & w' & Hrun).
  pose proof (wire_run count0 w) as H. rewrite Hrun in H.
  exists r, w'. split; [exact Hrun|exact H].
Qed.

(** ** The input *)

Lemma reads_app (n2 n1 : list event) : reads (n2 ++ n1) = reads n1 ++ reads n2.
Proof. unfold reads. rewrite rev_app_distr, flat_map_app. reflexivity. Qed.

Lemma in_order_run (count0 : Z) : keeps in_order in_order_exit (run count0).
Proof.
  assert (Hnone : forall w w' new,
             src (os w') = src (os w) -> trace w' = new ++ trace w ->
             reads new = [] -> in_order w w').
  { intros w w' new Hs Ht Hn. exists new. rewrite Hn, Hs. auto. }
  assert (Hr : forall w, in_order w w)
    by (intros w; apply (Hnone w w []); reflexivity).
  assert (Ht : forall w1 w2 w3,
             in_order w1 w2 -> in_order w2 w3 -> in_order w1 w3).
  { intros w1 w2 w3 (n1 & T1 & S1) (n2 & T2 & S2). exists (n2 ++ n1).
    rewrite T2, T1, S1, S2, reads_app, !app_assoc. auto. }
  assert (HE : forall w1 w2 r w3,
             in_order w1 w2 -> in_order_exit w2 r w3 -> in_order_exit w1 r w3)
    by (intros w1 w2 r w3; apply Ht).
  assert (Hput : forall b, keeps in_order in_order_exit (putbyte b)).
  { intros b w. putbyte_split b w;
      match goal with |- context [EvWrite b ?r] =>
        apply (Hnone _ _ [EvWrite b r]) end; reflexivity. }
  assert (Hget : forall st, keeps in_order in_order_exit (getbyte st)).
  { intros st w. getbyte_split st w.
    - exists [EvRead st (u8 b)]. split; [reflexivity|].
      simpl. rewrite Hsrc. reflexivity.
    - apply (Hnone _ _ []); reflexivity.
    - apply (Hnone _ _ []); simpl; rewrite ?Hsrc; reflexivity. }
  assert (Hlock : forall m, keeps in_order in_order_exit (LOCK m))
    by (intros m w; apply (Hnone _ _ [EvLock m]); reflexivity).
  assert (Hunlock : forall m, keeps in_order in_order_exit (UNLOCK m))
    by (intros m w; apply (Hnone _ _ [EvUnlock m]); reflexivity).
  assert (Hset : forall s, keeps in_order in_order_exit (set_status s))
    by (intros s w; apply (Hnone _ _ []); reflexivity).
  assert (Hstep : forall k : Z -> M unit,
             (forall b, keeps in_order in_order_exit (k b)) ->
             keeps in_order in_order_exit
               (byte <- getbyte Data ;;
                if truthy (IS_CHANNEL byte) then incomplete else k byte)).
  { apply keeps_data_step; auto. }
  apply keeps_run; auto.
Qed.

(** X3: the worker reads its input in order, each byte once: the bytes it
    read, followed by the bytes it left unread, are its input. *)
Theorem worker_reads_input_in_order (count0 : Z) (w : World) :
  exists r w' new,
    run count0 w = Exit r w' /\
    trace w' = new ++ trace w /\
    map u8 (src (os w)) = reads new ++ map u8 (src (os w')).
Proof.
  destruct (run_exits count0 w) as (r & w' & Hrun).
  pose proof (in_order_run count0 w) as H. rewrite Hrun in H.
  destruct H as (new & Htr & Hsrc). exists r, w', new. auto.
Qed.

(** ** Which branch a byte takes *)

(** X4: the top of the loop sends every byte from 0x08 on down the real-time
    branch, and the bytes 0x00..0x07, and no others, under the message
    lock, where they take the running-status branch: the branches for F0,
    for system and for channel status bytes are never taken. *)
Theorem dispatch_by_byte_value (status0 count b : Z) :
  0 <= b < 256 ->
  dispatch status0 count b =
  if 8 <=? b then (realtime b ;; ret (status0, count))
  else running status0 count b.
Proof.
  intros Hb. destruct (Z.leb_spec 8 b).
  - apply dispatch_from_8. lia.
  - unfold running. apply dispatch_below_8. lia.
Qed.

Lemma dispatch_by_byte_value_witness :
  0 <= 0x90 < 256 /\
  dispatch 0x00 2 0x90 =
  (if 8 <=? 0x90 then (realtime 0x90 ;; ret (0x00, 2))
   else running 0x00 2 0x90).
Proof. split; [lia|]. apply (dispatch_by_byte_value 0x00 2 0x90). lia. Defined.

(** X5: every look-up in the table of message lengths is inside the table,
    by the low nybble as by the high nybble of a byte, and gives 0, 1 or
    2. *)
Theorem msglen_lookup_in_bounds (z : Z) :
  (Z.to_nat (Z.land (u8 z) 0x0F) < List.length msglen)%nat /\
  (Z.to_nat (Z.shiftr (u8 z) 4) < List.length msglen)%nat /\
  0 <= msglen_at (Z.land (u8 z) 0x0F) <= 2 /\
  0 <= msglen_at (Z.shiftr (u8 z) 4) <= 2.
Proof.
  pose proof (u8_range z) as Hb. revert Hb. generalize (u8 z). intros b Hb.
  assert (H : (fun b =>
            (Z.to_nat (Z.land b 0x0F) <? List.length msglen)%nat &&
            (Z.to_nat (Z.shiftr b 4) <? List.length msglen)%nat &&
            (0 <=? msglen_at (Z.land b 0x0F)) &&
            (msglen_at (Z.land b 0x0F) <=? 2) &&
            (0 <=? msglen_at (Z.shiftr b 4)) &&
            (msglen_at (Z.shiftr b 4) <=? 2)) b = true).
  { revert b Hb. apply byte_cases. vm_compute. reflexivity. }
  cbv beta in H. rewrite !andb_true_iff in H.
  destruct H as (((((H1 & H2) & H3) & H4) & H5) & H6).
  apply Nat.ltb_lt in H1, H2. apply Z.leb_le in H3, H4, H5, H6.
  repeat split; assumption.
Qed.

(** ** The count of data bytes *)



Lemma data_only_input_never_framing_witness :
  Forall (fun b => u8 b < 0x80) (src (os (start [0x3C; 0x7F] Eof idle))) /\
  exists r w',
    run 0 (start [0x3C; 0x7F] Eof idle) = Exit r w' /\ r <> FramingExit.
Proof.
  assert (H : Forall (fun b => u8 b < 0x80)
                (src (os (start [0x3C; 0x7F] Eof idle))))
    by (repeat constructor; reflexivity).
  split; [exact H|].
  apply (data_only_input_never_framing 0 (start [0x3C; 0x7F] Eof idle) H).
Defined.

(** * Further properties of the supervisor *)

(** ** The start of [main] *)

Lemma init_streams_few (open : option string -> oflag -> Z) (argc : Z) :
  (forall fl, open None fl < 0) ->
  forall todo i streams out gfd,
    1 <= i -> i + Z.of_nat (List.length todo) <= MAX_STREAMS ->
    init_streams open argc i (todo ++ [None]) streams out gfd = StartExit 1.
Proof.
  intros Hnull. unfold MAX_STREAMS.
  induction todo as [|a todo IH]; intros i streams out gfd Hi Hlen;
    simpl in Hlen; simpl.
  - unfold MAX_STREAMS.
    destruct (Z.gtb_spec (i - 1) 8); [lia|].
    destruct (Z.geb_spec (i - 1) 8); [lia|].
    destruct (i =? argc); simpl.
    + pose proof (Hnull O_WRONLY) as H'. apply Z.ltb_lt in H'. rewrite H'.
      reflexivity.
    + pose proof (Hnull O_RDONLY) as H'. apply Z.ltb_lt in H'. rewrite H'.
      reflexivity.
  - unfold MAX_STREAMS.
    destruct (Z.gtb_spec (i - 1) 8); [lia|].
    destruct (Z.geb_spec (i - 1) 8); [lia|].
    destruct (i =? argc); simpl;
      match goal with |- context [?fd <? 0] => destruct (fd <? 0) end;
      auto; apply IH; lia.
Qed.

(** X8: with the program name and at most seven arguments, and an open that
    refuses the null pointer, main always ends with exit(1), before any
    worker is launched: its first loop goes on to argv[argc]. *)
Theorem main_exits_1 (open : option string -> oflag -> Z)
    (argv : list string) (fates : nat -> fate) :
  (forall fl, open None fl < 0) ->
  (List.length argv <= 8)%nat ->
  main open argv fates = Some 1.
Proof.
  intros Hnull Hlen. unfold main, main_startup, arguments.
  destruct argv as [|prog rest]; [reflexivity|].
  rewrite (init_streams_few open _ Hnull (map Some rest) 1 [] 0 (-1)).
  - reflexivity.
  - lia.
  - unfold MAX_STREAMS. rewrite length_map. simpl in Hlen. lia.
Qed.

Lemma main_exits_1_witness :
  (forall fl, open_but_missing None fl < 0) /\
  (List.length ["merge"; "in1"; "in2"; "out"]%string <= 8)%nat /\
  main open_but_missing ["merge"; "in1"; "in2"; "out"]%string
       (fun _ => mkFate (mkIO 0 0) O) = Some 1.
Proof.
  assert (H1 : forall fl, open_but_missing None fl < 0)
    by (intros fl; reflexivity).
  assert (H2 : (List.length ["merge"; "in1"; "in2"; "out"]%string <= 8)%nat)
    by (simpl; lia).
  split; [exact H1|]. split; [exact H2|].
  apply (main_exits_1 open_but_missing
           ["merge"; "in1"; "in2"; "out"]%string
           (fun _ => mkFate (mkIO 0 0) O) H1 H2).
Defined.

Lemma init_streams_many (open : option string -> oflag -> Z) (argc : Z) :
  (forall n fl, 0 <= open (Some n) fl) ->
  MAX_STREAMS + 1 <= argc ->
  forall (n : nat) todo i streams out gfd,
    i + Z.of_nat n = MAX_STREAMS + 1 -> 1 <= i ->
    names_first n todo -> (n < List.length todo)%nat ->
    init_streams open argc i todo streams out gfd = StartOutOfBounds.
Proof.
  intros Hopen. unfold MAX_STREAMS. intros Hargc.
  induction n as [|n IH]; intros todo i streams out gfd Hi H1
    [Hlen Hnames] Hmore.
  - destruct todo as [|a todo]; [simpl in Hmore; lia|]. simpl.
    unfold MAX_STREAMS.
    destruct (Z.gtb_spec (i - 1) 8); [lia|].
    destruct (Z.geb_spec (i - 1) 8); [reflexivity|lia].
  - destruct todo as [|a todo]; [simpl in Hmore; lia|]. simpl.
    unfold MAX_STREAMS.
    destruct (Z.gtb_spec (i - 1) 8); [lia|].
    destruct (Z.geb_spec (i - 1) 8); [lia|].
    simpl in Hnames. inversion Hnames as [|? ? Ha Hrest]; subst.
    destruct a as [name|]; [|congruence].
    destruct (Z.eqb_spec i argc); [lia|]. simpl.
    pose proof (Hopen name O_RDONLY) as Hfd.
    destruct (Z.ltb_spec (open (Some name) O_RDONLY) 0); [lia|].
    apply IH; try lia.
    + split; [simpl in Hlen; lia|exact Hrest].
    + simpl in Hmore. lia.
Qed.

(** X9: with eight arguments or more after the program name, and an open
    that accepts every name, the first loop of main stores into mss[8],
    past the end of the array of MAX_STREAMS streams: the test
    j > MAX_STREAMS comes one stream too late. *)
Theorem main_overruns_streams (open : option string -> oflag -> Z)
    (argv : list string) :
  (forall n fl, 0 <= open (Some n) fl) ->
  (9 <= List.length argv)%nat ->
  main_startup open argv = StartOutOfBounds.
Proof.
  intros Hopen Hlen. unfold main_startup, arguments.
  destruct argv as [|prog rest]; [simpl in Hlen; lia|].
  simpl in Hlen.
  apply (init_streams_many open _ Hopen) with (n := 8%nat);
    unfold MAX_STREAMS; try lia.
  - simpl List.length. lia.
  - split.
    + rewrite length_app, length_map. simpl. lia.
    + rewrite firstn_app, length_map.
      apply Forall_app. split.
      * rewrite firstn_map. apply Forall_forall. intros a Hin.
        apply in_map_iff in Hin. destruct Hin as (x & <- & _). discriminate.
      * replace (8 - List.length rest)%nat with O by lia. constructor.
  - rewrite length_app, length_map. simpl. lia.
Qed.

Lemma main_overruns_streams_witness :
  (forall n fl, 0 <= open_names (Some n) fl) /\
  (9 <= List.length
          ["merge"; "a"; "b"; "c"; "d"; "e"; "f"; "g"; "out"]%string)%nat /\
  main_startup open_names
    ["merge"; "a"; "b"; "c"; "d"; "e"; "f"; "g"; "out"]%string
  = StartOutOfBounds.
Proof.
  assert (H1 : forall n fl, 0 <= open_names (Some n) fl)
    by (intros n fl; simpl; lia).
  assert (H2 : (9 <= List.length
                  ["merge"; "a"; "b"; "c"; "d"; "e"; "f"; "g"; "out"]%string)%nat)
    by (simpl; lia).
  split; [exact H1|]. split; [exact H2|].
  apply (main_overruns_streams open_names
           ["merge"; "a"; "b"; "c"; "d"; "e"; "f"; "g"; "out"]%string H1 H2).
Defined.

(** ** The polling loop *)

(** X10: one sweep over streams that are neither done nor joined joins exactly
    the streams whose worker has finished, and reports that all are done
    exactly when all workers have finished. *)
Theorem sweep_joins_the_finished (k : nat) (ws : list (MIDIStream * fate)) :
  fresh ws ->
  map (fun mf => joined (fst mf)) (fst (sweep k ws)) = map (finished k) ws /\
  snd (sweep k ws) = forallb (finished k) ws.
Proof.
  unfold fresh, finished.
  induction ws as [|[m f] ws IH]; intros Hfresh; [split; reflexivity|].
  inversion Hfresh as [|? ? [Hj Hd] Hrest]; subst. simpl in Hj, Hd.
  destruct (IH Hrest) as [IHj IHd]. simpl.
  destruct (sweep k ws) as [rest d]. simpl in *. unfold seen.
  destruct (fin_at f <=? k)%nat; simpl.
  - rewrite Hj. simpl. rewrite IHj, IHd. auto.
  - rewrite Hj, Hd. simpl. rewrite IHj, Hj. auto.
Qed.

Lemma sweep_joins_the_finished_witness :
  fresh [(mkMSS (Some "a"%string) 0 false false (mkIO 0 0),
          mkFate (mkIO 0 0) 0);
         (mkMSS (Some "b"%string) 1 false false (mkIO 0 0),
          mkFate (mkIO (-1) 5) 3)] /\
  map (fun mf => joined (fst mf))
      (fst (sweep 1 [(mkMSS (Some "a"%string) 0 false false (mkIO 0 0),
                      mkFate (mkIO 0 0) 0);
                     (mkMSS (Some "b"%string) 1 false false (mkIO 0 0),
                      mkFate (mkIO (-1) 5) 3)]))
  = [true; false].
Proof.
  assert (H : fresh [(mkMSS (Some "a"%string) 0 false false (mkIO 0 0),
                      mkFate (mkIO 0 0) 0);
                     (mkMSS (Some "b"%string) 1 false false (mkIO 0 0),
                      mkFate (mkIO (-1) 5) 3)])
    by (repeat constructor).
  split; [exact H|].
  exact (proj1 (sweep_joins_the_finished 1 _ H)).
Defined.

(** * The branches the worker does take *)

Lemma dispatch_running (status0 count b : Z) :
  0 <= b < 8 -> dispatch status0 count b = running status0 count b.
Proof. intros Hb. unfold running. apply dispatch_below_8. exact Hb. Qed.

Lemma running_value (s c b : Z) (w : World) (a : Z * Z) (w' : World) :
  running s c b w = Ret a w' -> a = (s, c).
Proof.
  unfold running, bind, LOCK, UNLOCK, ret.
  destruct (putmsg s b c _); intros H; inversion H; reflexivity.
Qed.

(** What holds at the top of the loop ([I]), after the read there ([J]),
    and when the worker has left ([X]): it is enough to look at the
    real-time branch for the bytes from 0x08 on and at the running-status
    branch, with status 0x00, for the bytes below. *)
Section Reachable.
Variable I : World -> Prop.
Variable J : Z -> World -> Prop.
Variable X : reason -> World -> Prop.
Hypothesis H_top : hoare I (getbyte Top) J X.
Hypothesis H_rt :
  forall b, 8 <= b < 256 -> hoare (J b) (realtime b) (fun _ => I) X.
Hypothesis H_run :
  forall b count, 0 <= b < 8 ->
    hoare (J b) (running 0x00 count b) (fun _ => I) X.

Lemma reachable_run_loop (fuel : nat) :
  forall count,
    hoare I (run_loop fuel 0x00 count) (fun _ _ => True) X.
Proof.
  induction fuel as [|fuel IH]; intros count w HI; simpl; [exact Logic.I|].
  unfold bind at 1. pose proof (H_top w HI) as Ht. revert Ht.
  getbyte_split Top w; intros Ht; auto.
  pose proof (u8_range b) as Hb.
  destruct (Z.leb_spec 8 (u8 b)).
  - rewrite dispatch_from_8 by lia. unfold bind at 1. unfold bind at 1.
    pose proof (H_rt (u8 b) ltac:(lia) _ Ht) as Hr.
    destruct (realtime (u8 b) _); auto.
    unfold ret. cbv beta iota. apply IH. exact Hr.
  - rewrite dispatch_running by lia. unfold bind at 1.
    pose proof (H_run (u8 b) count ltac:(lia) _ Ht) as Hr.
    destruct (running 0 count (u8 b) _) eqn:Erun; auto.
    apply running_value in Erun. subst. apply IH. exact Hr.
Qed.

Lemma reachable_run (count0 : Z) :
  hoare I (run count0) (fun _ _ => True) X.
Proof. intros w HI. unfold run, bounded. now apply reachable_run_loop. Qed.
End Reachable.

Lemma keeps_hoare (R : World -> World -> Prop)
    (E : World -> reason -> World -> Prop) {A} (c : M A) (w0 : World) :
  (forall w1 w2 w3, R w1 w2 -> R w2 w3 -> R w1 w3) ->
  (forall w1 w2 r w3, R w1 w2 -> E w2 r w3 -> E w1 r w3) ->
  keeps R E c ->
  hoare (R w0) c (fun _ => R w0) (E w0).
Proof.
  intros Ht HE Hk w HR. specialize (Hk w).
  destruct (c w); eauto.
Qed.

(** The relational form: a pair kept by the read at the top, by the
    real-time branch and by the running-status branch with status 0x00 is
    kept by the worker. *)
Lemma reachable_keeps (R : World -> World -> Prop)
    (E : World -> reason -> World -> Prop) :
  (forall w, R w w) ->
  (forall w1 w2 w3, R w1 w2 -> R w2 w3 -> R w1 w3) ->
  (forall w1 w2 r w3, R w1 w2 -> E w2 r w3 -> E w1 r w3) ->
  keeps R E (getbyte Top) ->
  (forall b, keeps R E (realtime b)) ->
  (forall b c, keeps R E (running 0x00 c b)) ->
  forall count0, keeps R E (run count0).
Proof.
  intros Hr Ht HE Ktop Krt Krun count0 w.
  pose proof (reachable_run (R w) (fun _ => R w) (E w)) as H.
  specialize (H (keeps_hoare R E (getbyte Top) w Ht HE Ktop)).
  specialize (H (fun b _ => keeps_hoare R E (realtime b) w Ht HE (Krt b))).
  specialize (H (fun b c _ => keeps_hoare R E (running 0 c b) w Ht HE
                                 (Krun b c))).
  specialize (H count0 w (Hr w)).
  destruct (run count0 w) as [[]| |]; auto.
Qed.

Lemma keeps_running (R : World -> World -> Prop)
    (E : World -> reason -> World -> Prop) (s c b : Z) :
  (forall w, R w w) ->
  (forall w1 w2 w3, R w1 w2 -> R w2 w3 -> R w1 w3) ->
  (forall w1 w2 r w3, R w1 w2 -> E w2 r w3 -> E w1 r w3) ->
  (forall m, keeps R E (LOCK m)) ->
  (forall m, keeps R E (UNLOCK m)) ->
  keeps R E (putmsg s b c) ->
  keeps R E (running s c b).
Proof.
  intros Hr Ht HE Hl Hu Hp. unfold running.
  apply (keeps_bind R E Ht HE); [apply Hl|intros _].
  apply (keeps_bind R E Ht HE).
  - apply (keeps_bind R E Ht HE); [exact Hp|intros _].
    apply (keeps_ret R E Hr).
  - intros sc. apply (keeps_bind R E Ht HE); [apply Hu|intros _].
    apply (keeps_ret R E Hr).
Qed.

(** ** No system exclusive transfer *)

Lemma nosox_parts :
  (forall w, nosox_R w w) /\
  (forall w1 w2 w3, nosox_R w1 w2 -> nosox_R w2 w3 -> nosox_R w1 w3) /\
  (forall w w' e, trace w' = e :: trace w ->
                  (forall b, e <> EvRead Sox b) -> nosox_R w w').
Proof.
  split; [|split].
  - intros w. exists []. split; [reflexivity|]. intros b [].
  - intros w1 w2 w3 (n1 & T1 & B1) (n2 & T2 & B2). exists (n2 ++ n1).
    split; [rewrite T2, T1, app_assoc; reflexivity|].
    intros b Hin. apply in_app_or in Hin. destruct Hin as [Hin|Hin].
    + exact (B2 b Hin).
    + exact (B1 b Hin).
  - intros w w' e Ht He. exists [e]. split; [exact Ht|].
    intros b [Hin|[]]. exact (He b Hin).
Qed.

Lemma nosox_run (count0 : Z) : keeps nosox_R nosox_E (run count0).
Proof.
  destruct nosox_parts as (Hr & Ht & Hone).
  assert (HE : forall w1 w2 r w3,
             nosox_R w1 w2 -> nosox_E w2 r w3 -> nosox_E w1 r w3)
    by (intros w1 w2 r w3; apply Ht).
  assert (Hlock : forall m, keeps nosox_R nosox_E (LOCK m))
    by (intros m w; apply (Hone _ _ (EvLock m)); [reflexivity|discriminate]).
  assert (Hunlock : forall m, keeps nosox_R nosox_E (UNLOCK m))
    by (intros m w; apply (Hone _ _ (EvUnlock m)); [reflexivity|discriminate]).
  assert (Hset : forall s, keeps nosox_R nosox_E (set_status s))
    by (intros s w; exact (Hr w)).
  assert (Hput : forall b, keeps nosox_R nosox_E (putbyte b)).
  { intros b w. putbyte_split b w;
      match goal with |- context [EvWrite b ?r] =>
        apply (Hone _ _ (EvWrite b r)) end;
      try reflexivity; discriminate. }
  assert (Hget : forall st, st <> Sox -> keeps nosox_R nosox_E (getbyte st)).
  { intros st Hst w. getbyte_split st w; try exact (Hr w).
    apply (Hone _ _ (EvRead st (u8 b))); [reflexivity|].
    intros b' H. inversion H. congruence. }
  assert (Hstep : forall k : Z -> M unit,
             (forall b, keeps nosox_R nosox_E (k b)) ->
             keeps nosox_R nosox_E
               (byte <- getbyte Data ;;
                if truthy (IS_CHANNEL byte) then incomplete else k byte)).
  { apply keeps_data_step; auto; try (apply Hget; discriminate);
      try (intros w; exact (Hr w)). }
  apply reachable_keeps; auto.
  - apply Hget. discriminate.
  - intros b. apply keeps_realtime; auto.
  - intros b c. apply keeps_running; auto. apply keeps_putmsg; auto.
Qed.

(** X11: the worker never starts a system exclusive transfer: whatever its
    input, it reads no byte in the loop that copies a transfer under both
    locks. *)
Theorem worker_never_transfers_sysex (count0 : Z) (w : World) :
  exists r w' new,
    run count0 w = Exit r w' /\
    trace w' = new ++ trace w /\
    forall b, ~ In (EvRead Sox b) new.
Proof.
  destruct (run_exits count0 w) as (r & w' & Hrun).
  pose proof (nosox_run count0 w) as H. rewrite Hrun in H.
  destruct H as (new & Htr & Hno). exists r, w', new. auto.
Qed.

(** ** [global.status] *)

Lemma loop_keeps_status (i count : Z) (w : World) :
  match bounded (fun fuel => putmsg_loop fuel i count) w with
  | Ret _ w' | Exit _ w' => status (global w') = status (global w)
  | Fuel => True
  end.
Proof.
  unfold bounded.
  pose proof (putmsg_loop_data_writes (S (List.length (src (os w))))
                i count w) as H.
  destruct (putmsg_loop _ i count w); simpl in H; tauto.
Qed.

Ltac loop_tail :=
  match goal with
  | |- context [bounded ?l ?w1] =>
      let H := fresh "Hloop" in
      assert (H := loop_keeps_status _ _ w1
                   : match bounded l w1 with
                     | Ret _ w' | Exit _ w' =>
                         status (global w') = status (global w1)
                     | Fuel => True
                     end);
      destruct (bounded l w1);
      simpl in H |- *; auto
  end.

(** [putmsg] leaves [global.status] at its status argument when it
    returns, and there or as it was when it ends the worker. *)
Lemma putmsg_status_after (s first count : Z) (w : World) :
  match putmsg s first count w with
  | Ret _ w' => status (global w') = s
  | Exit _ w' =>
      status (global w') = status (global w) \/ status (global w') = s
  | Fuel => True
  end.
Proof.
  unfold putmsg.
  destruct (Z.eqb_spec first s) as [Hf|Hf];
    unfold bind, get_status, ret, set_status; cbv beta iota zeta;
    destruct (Z.eqb_spec (status (global w)) s) as [Hg|Hg];
    cbn [negb]; cbv beta iota.
  - loop_tail; try congruence; try (left; congruence); try (right; congruence).
  - putbyte_split first w; simpl; auto.
    loop_tail; try congruence; try (left; congruence); try (right; congruence).
  - putbyte_split first w; simpl; auto.
    loop_tail; try congruence; try (left; congruence); try (right; congruence).
  - putbyte_split s w; simpl; auto.
    match goal with |- context [putbyte first ?w1] =>
      putbyte_split first w1 end; simpl; auto.
    loop_tail; try congruence; try (left; congruence); try (right; congruence).
Qed.

Lemma zero_run (count0 : Z) : keeps zero_R zero_E (run count0).
Proof.
  assert (Hr : forall w, zero_R w w) by (intros w H; exact H).
  assert (Ht : forall w1 w2 w3, zero_R w1 w2 -> zero_R w2 w3 -> zero_R w1 w3)
    by (unfold zero_R; auto).
  assert (HE : forall w1 w2 r w3,
             zero_R w1 w2 -> zero_E w2 r w3 -> zero_E w1 r w3)
    by (unfold zero_E, zero_R; auto).
  assert (Hlock : forall m, keeps zero_R zero_E (LOCK m))
    by (intros m w H; destruct m; exact H).
  assert (Hunlock : forall m, keeps zero_R zero_E (UNLOCK m))
    by (intros m w H; destruct m; exact H).
  assert (Hput : forall b, keeps zero_R zero_E (putbyte b))
    by (intros b w; putbyte_split b w; intros H; exact H).
  assert (Hget : keeps zero_R zero_E (getbyte Top))
    by (intros w; getbyte_split Top w; intros H; exact H).
  apply reachable_keeps; auto.
  - intros b. apply keeps_realtime; auto.
  - intros b c. apply keeps_running; auto.
    intros w. pose proof (putmsg_status_after 0 b c w) as H.
    destruct (putmsg 0 b c w); auto.
    + intros _. exact H.
    + intros H0. destruct H as [H|H]; congruence.
Qed.

(** X12: a worker that finds 0x00 in global.status, where main puts it, never
    changes it: global.status is 0x00 when the worker has left, whatever
    it has read and written. *)
Theorem global_status_stays_zero (count0 : Z) (w : World) :
  status (global w) = 0x00 ->
  exists r w', run count0 w = Exit r w' /\ status (global w') = 0x00.
Proof.
  intros H0. destruct (run_exits count0 w) as (r & w' & Hrun).
  pose proof (zero_run count0 w) as H. rewrite Hrun in H.
  exists r, w'. split; [exact Hrun|exact (H H0)].
Qed.

Lemma global_status_stays_zero_witness :
  status (global (start [0x90; 0x3C; 0x05; 0x7F] Eof idle)) = 0x00 /\
  exists r w',
    run 2 (start [0x90; 0x3C; 0x05; 0x7F] Eof idle) = Exit r w' /\
    status (global w') = 0x00.
Proof.
  split; [reflexivity|].
  apply (global_status_stays_zero 2
           (start [0x90; 0x3C; 0x05; 0x7F] Eof idle)).
  reflexivity.
Defined.

(** ** The mutexes a worker leaves held *)

Lemma mutexes_putmsg (s b c : Z) : keeps mutexes_R mutexes_E (putmsg s b c).
Proof.
  assert (Hr : forall w, mutexes_R w w) by (intros w; split; reflexivity).
  assert (Ht : forall w1 w2 w3,
             mutexes_R w1 w2 -> mutexes_R w2 w3 -> mutexes_R w1 w3)
    by (unfold mutexes_R; intros w1 w2 w3 [] []; split; congruence).
  assert (HE : forall w1 w2 r w3,
             mutexes_R w1 w2 -> mutexes_E w2 r w3 -> mutexes_E w1 r w3)
    by (intros w1 w2 r w3; apply Ht).
  assert (Hset : forall s0, keeps mutexes_R mutexes_E (set_status s0))
    by (intros s0 w0; split; reflexivity).
  assert (Hput : forall b0, keeps mutexes_R mutexes_E (putbyte b0))
    by (intros b0 w0; putbyte_split b0 w0; split; reflexivity).
  assert (Hget : keeps mutexes_R mutexes_E (getbyte Data))
    by (intros w0; getbyte_split Data w0; split; reflexivity).
  assert (Hinc : keeps mutexes_R mutexes_E (@incomplete unit))
    by (intros w0; split; reflexivity).
  apply keeps_putmsg; auto.
  apply keeps_data_step; auto.
Qed.

(** X13: a worker that starts with both mutexes free never holds both, and
    releases nothing on its way out: after the framing abort it still
    holds the message lock, after a write that did not return 0 it holds
    one of the two mutexes, and after a read that gave nothing it does not
    hold the real-time lock. *)
Theorem worker_leaves_mutex_held (count0 : Z) (w : World) :
  lock (global w) = false -> lock_rt (global w) = false ->
  exists r w',
    run count0 w = Exit r w' /\
    match r with
    | FramingExit => lock (global w') = true /\ lock_rt (global w') = false
    | WriteExit => xorb (lock (global w')) (lock_rt (global w')) = true
    | ReadExit => lock_rt (global w') = false
    end.
Proof.
  intros Hl Hrt. destruct (run_exits count0 w) as (r & w' & Hrun).
  pose proof (reachable_run free (fun _ => free) held_on_exit) as H.
  exists r, w'. split; [exact Hrun|].
  assert (Hgoal : held_on_exit r w'); [|exact Hgoal].
  specialize (H ltac:(
    intros w0 [H1 H2]; getbyte_split Top w0; simpl; auto; split; assumption)).
  assert (Hrtb : forall b, 8 <= b < 256 ->
             hoare free (realtime b) (fun _ => free) held_on_exit).
  { intros b _ w0 [H1 H2]. unfold realtime, bind, LOCK. cbv beta iota.
    match goal with |- context [putbyte b ?w1] => putbyte_split b w1 end;
      simpl; rewrite ?H1; auto. split; auto. }
  assert (Hrun0 : forall b count, 0 <= b < 8 ->
             hoare free (running 0x00 count b) (fun _ => free) held_on_exit).
  { intros b count _ w0 [H1 H2]. unfold running. unfold bind at 1.
    unfold LOCK at 1. cbv beta iota. unfold bind at 1. unfold bind at 1.
    match goal with |- context [putmsg 0 b count ?w1] =>
      pose proof (mutexes_putmsg 0 b count w1) as Hm;
      destruct (putmsg 0 b count w1) as [u w2|r2 w2|]
    end; simpl in Hm; auto.
    - destruct Hm as [Hm1 Hm2]. simpl in Hm1, Hm2.
      unfold ret, bind, UNLOCK, free. simpl.
      split; [reflexivity|congruence].
    - destruct Hm as [Hm1 Hm2]. simpl in Hm1, Hm2. rewrite H2 in Hm2.
      destruct r2; simpl; rewrite ?Hm1, ?Hm2; auto. }
  specialize (H Hrtb Hrun0 count0 w (conj Hl Hrt)).
  rewrite Hrun in H. exact H.
Qed.

Lemma worker_leaves_mutex_held_witness :
  lock (global (start [0x05; 0x90] Eof idle)) = false /\
  lock_rt (global (start [0x05; 0x90] Eof idle)) = false /\
  exists r w',
    run 1 (start [0x05; 0x90] Eof idle) = Exit r w' /\
    match r with
    | FramingExit => lock (global w') = true /\ lock_rt (global w') = false
    | WriteExit => xorb (lock (global w')) (lock_rt (global w')) = true
    | ReadExit => lock_rt (global w') = false
    end.
Proof.
  split; [reflexivity|]. split; [reflexivity|].
  apply (worker_leaves_mutex_held 1 (start [0x05; 0x90] Eof idle));
    reflexivity.
Defined.

(** ** A sink that completes its writes *)

Lemma putmsg_nonzero_completes (first count : Z) (w : World) :
  first <> 0 ->
  status (global w) = 0x00 ->
  sink_dev (os w) (nwrites (os w)) = Wrote ->
  putmsg 0x00 first count w =
  Exit WriteExit
    (set_done
       (set_error (errno (written first Wrote (os w)))
          (set_retval 1
             (log (EvWrite first Wrote)
                (set_os (written first Wrote (os w)) w))))).
Proof.
  intros Hf Hst Hdev. unfold putmsg.
  destruct (Z.eqb_spec first 0); [contradiction|].
  unfold bind, get_status, ret. cbv beta iota. rewrite Hst.
  cbn [negb Z.eqb]. cbv beta iota.
  rewrite (putbyte_unfold first w). cbv zeta. rewrite Hdev. reflexivity.
Qed.

(** X14: when both mutexes are free, global.status is 0x00 and the next
    write completes, the worker that reads a byte other than 0x00 writes
    that byte and ends there, from putbyte, with retval 1, the rest of
    its input unread, and the one mutex it had taken still held. *)
Theorem first_byte_written_ends_worker
    (count0 b : Z) (rest : list Z) (w : World) :
  lock (global w) = false -> lock_rt (global w) = false ->
  src (os w) = b :: rest ->
  u8 b <> 0 ->
  status (global w) = 0x00 ->
  sink_dev (os w) (nwrites (os w)) = Wrote ->
  exists w',
    run count0 w = Exit WriteExit w' /\
    sink (os w') = sink (os w) ++ [u8 b] /\
    src (os w') = rest /\
    io (mss w') = mkIO 1 (errno (os w)) /\
    done (mss w') = true /\
    xorb (lock (global w')) (lock_rt (global w')) = true.
Proof.
  intros Hl Hrt Hsrc Hb Hst Hdev. unfold run, bounded. rewrite Hsrc.
  simpl run_loop. unfold bind at 1.
  rewrite (getbyte_some Top w b rest Hsrc).
  pose proof (u8_range b) as Hrange. unfold bind at 1.
  destruct (Z.leb_spec 8 (u8 b)).
  - rewrite dispatch_from_8 by lia.
    unfold realtime, bind, LOCK. cbv beta iota.
    match goal with |- context [putbyte (u8 b) ?w1] =>
      rewrite (putbyte_unfold (u8 b) w1) end. cbv zeta. simpl os.
    simpl nwrites. simpl sink_dev. rewrite Hdev.
    eexists. split; [reflexivity|]. simpl. rewrite Hl. auto.
  - rewrite dispatch_running by lia.
    unfold running. unfold bind at 1. unfold LOCK at 1. cbv beta iota.
    unfold bind at 1. unfold bind at 1.
    rewrite putmsg_nonzero_completes; auto.
    eexists. split; [reflexivity|]. simpl. rewrite Hrt. auto.
Qed.

Lemma first_byte_written_ends_worker_witness :
  lock (global (start [0x90; 0x3C; 0x7F] Eof completes)) = false /\
  lock_rt (global (start [0x90; 0x3C; 0x7F] Eof completes)) = false /\
  src (os (start [0x90; 0x3C; 0x7F] Eof completes)) = 0x90 :: [0x3C; 0x7F] /\
  u8 0x90 <> 0 /\
  status (global (start [0x90; 0x3C; 0x7F] Eof completes)) = 0x00 /\
  sink_dev (os (start [0x90; 0x3C; 0x7F] Eof completes))
           (nwrites (os (start [0x90; 0x3C; 0x7F] Eof completes))) = Wrote /\
  exists w',
    run 0 (start [0x90; 0x3C; 0x7F] Eof completes) = Exit WriteExit w' /\
    sink (os w') = sink (os (start [0x90; 0x3C; 0x7F] Eof completes))
                   ++ [u8 0x90] /\
    src (os w') = [0x3C; 0x7F] /\
    io (mss w') =
      mkIO 1 (errno (os (start [0x90; 0x3C; 0x7F] Eof completes))) /\
    done (mss w') = true /\
    xorb (lock (global w')) (lock_rt (global w')) = true.
Proof.
  assert (H2 : u8 0x90 <> 0) by (vm_compute; discriminate).
  split; [reflexivity|]. split; [reflexivity|].
  split; [reflexivity|]. split; [exact H2|]. split; [reflexivity|].
  split; [reflexivity|].
  apply (first_byte_written_ends_worker 0 0x90 [0x3C; 0x7F]
           (start [0x90; 0x3C; 0x7F] Eof completes)
           eq_refl eq_refl eq_refl H2 eq_refl eq_refl).
Defined.

(** ** Nothing is written that was not read *)

Lemma read_before_written_spec (new : list event) :
  read_before_written new ->
  forall newer older b res,
    new = newer ++ EvWrite b res :: older ->
    exists st, In (EvRead st b) older.
Proof.
  intros H newer. revert new H.
  induction newer as [|e newer IH]; intros new H older b res Heq; subst new.
  - simpl in H. tauto.
  - apply (IH (newer ++ EvWrite b res :: older)) with (res := res);
      [|reflexivity].
    destruct e; simpl in H; tauto.
Qed.

Lemma loop_fed (w0 : World) (fuel : nat) :
  forall i count w new,
    trace w = new ++ trace w0 -> read_before_written new ->
    match putmsg_loop fuel i count w with
    | Ret _ w' | Exit _ w' =>
        exists new', trace w' = new' ++ trace w0 /\ read_before_written new'
    | Fuel => True
    end.
Proof.
  induction fuel as [|fuel IH]; intros i count w new Htr Hrbw; simpl.
  - destruct (i <=? count); [exact I|]. exists new. auto.
  - destruct (i <=? count); [|exists new; auto].
    unfold bind at 1. getbyte_split Data w; try (exists new; auto).
    destruct (truthy (IS_CHANNEL (u8 b))).
    + exists (EvRead Data (u8 b) :: new). simpl. rewrite Htr. auto.
    + unfold bind at 1.
      match goal with |- context [putbyte (u8 b) ?w1] =>
        putbyte_split (u8 b) w1 end.
      * exists (EvWrite (u8 b) Wrote :: EvRead Data (u8 b) :: new).
        simpl. rewrite Htr. repeat split; auto. exists Data. left. reflexivity.
      * match goal with |- context [putmsg_loop fuel ?j count ?w2] =>
          apply (IH j count w2
                   (EvWrite (u8 b) WroteNone :: EvRead Data (u8 b) :: new))
        end.
        -- simpl. rewrite Htr. reflexivity.
        -- simpl. split; auto. exists Data. left. reflexivity.
      * exists (EvWrite (u8 b) (WriteErr en) :: EvRead Data (u8 b) :: new).
        simpl. rewrite Htr. repeat split; auto. exists Data. left. reflexivity.
Qed.

Lemma putmsg_fed (w0 : World) (b count : Z) :
  hoare (fed_with w0 b) (putmsg 0x00 b count) (fun _ => fed w0) (fed_exit w0).
Proof.
  intros w (Hst & new & Htr & Hrbw & st & Hin).
  assert (Htail : forall i w1 new1,
            trace w1 = new1 ++ trace w0 -> read_before_written new1 ->
            status (global w1) = 0 ->
            match bounded (fun fuel => putmsg_loop fuel i count) w1 with
            | Ret _ w' => fed w0 w'
            | Exit r w' => fed_exit w0 r w'
            | Fuel => True
            end).
  { intros i w1 new1 Htr1 Hrbw1 Hst1.
    pose proof (loop_keeps_status i count w1) as Hs.
    pose proof (loop_fed w0 (S (List.length (src (os w1)))) i count w1 new1
                  Htr1 Hrbw1) as Hf.
    unfold bounded in *.
    destruct (putmsg_loop _ i count w1); auto.
    split; [congruence|exact Hf]. }
  unfold putmsg.
  destruct (Z.eqb_spec b 0) as [Hb|Hb];
    unfold bind, get_status, ret, set_status; cbv beta iota zeta;
    rewrite Hst; cbn [negb Z.eqb]; cbv beta iota.
  - apply (Htail 0 w new); auto.
  - putbyte_split b w.
    + exists (EvWrite b Wrote :: new). simpl. rewrite Htr. eauto.
    + match goal with |- context [bounded _ ?w1] =>
        apply (Htail (0 + 1) w1 (EvWrite b WroteNone :: new)) end; auto.
      * simpl. rewrite Htr. reflexivity.
      * simpl. eauto.
    + exists (EvWrite b (WriteErr en) :: new). simpl. rewrite Htr. eauto.
Qed.

Lemma fed_run (count0 : Z) (w0 : World) :
  hoare (fed w0) (run count0) (fun _ _ => True) (fed_exit w0).
Proof.
  apply (reachable_run (fed w0) (fed_with w0) (fed_exit w0)).
  - intros w (Hst & new & Htr & Hrbw). getbyte_split Top w.
    + split; [exact Hst|]. exists (EvRead Top (u8 b) :: new).
      simpl. rewrite Htr. repeat split; auto. exists Top. left. reflexivity.
    + exists new. auto.
    + exists new. auto.
  - intros b _ w (Hst & new & Htr & Hrbw & st & Hin).
    unfold realtime, bind, LOCK. cbv beta iota.
    match goal with |- context [putbyte b ?w1] => putbyte_split b w1 end.
    + exists (EvWrite b Wrote :: EvLock RtLock :: new).
      simpl. rewrite Htr. repeat split; auto. exists st. right. exact Hin.
    + split; [exact Hst|].
      exists (EvUnlock RtLock :: EvWrite b WroteNone :: EvLock RtLock :: new).
      simpl. rewrite Htr. repeat split; auto. exists st. right. exact Hin.
    + exists (EvWrite b (WriteErr en) :: EvLock RtLock :: new).
      simpl. rewrite Htr. repeat split; auto. exists st. right. exact Hin.
  - intros b count _ w (Hst & new & Htr & Hrbw & st & Hin).
    unfold running. unfold bind at 1. unfold LOCK at 1. cbv beta iota.
    unfold bind at 1. unfold bind at 1.
    match goal with |- context [putmsg 0 b count ?w1] =>
      assert (Hpre : fed_with w0 b w1);
      [|pose proof (putmsg_fed w0 b count w1 Hpre) as Hp;
        destruct (putmsg 0 b count w1) as [u w2|r2 w2|]; auto]
    end.
    + split; [exact Hst|]. exists (EvLock MsgLock :: new).
      simpl. rewrite Htr. repeat split; auto. exists st. right. exact Hin.
    + destruct Hp as (Hst2 & new2 & Htr2 & Hrbw2).
      unfold ret, bind, UNLOCK. cbv beta iota.
      split; [exact Hst2|]. exists (EvUnlock MsgLock :: new2).
      simpl. rewrite Htr2. auto.
Qed.

Lemma in_reads (st : site) (b : Z) (new : list event) :
  In (EvRead st b) new -> In b (reads new).
Proof.
  intros Hin. unfold reads. apply in_flat_map.
  exists (EvRead st b). split; [apply in_rev in Hin; exact Hin|].
  left. reflexivity.
Qed.

(** X15: a worker that finds 0x00 in global.status hands to write only bytes
    it has read before, which are bytes of its input: it adds no byte of
    its own to the stream. *)
Theorem worker_writes_only_what_it_read (count0 : Z) (w : World) :
  status (global w) = 0x00 ->
  exists r w' new,
    run count0 w = Exit r w' /\
    trace w' = new ++ trace w /\
    forall newer older b res,
      new = newer ++ EvWrite b res :: older ->
      (exists st, In (EvRead st b) older) /\ In b (map u8 (src (os w))).
Proof.
  intros Hst. destruct (run_exits count0 w) as (r & w' & Hrun).
  assert (Hfed : fed w w) by (split; [exact Hst|]; exists []; simpl; auto).
  pose proof (fed_run count0 w w Hfed) as H. rewrite Hrun in H.
  destruct H as (new & Htr & Hrbw).
  pose proof (in_order_run count0 w) as Hord. rewrite Hrun in Hord.
  destruct Hord as (new' & Htr' & Hsrc).
  assert (new' = new) as -> by (apply (app_inv_tail (trace w)); congruence).
  exists r, w', new. split; [exact Hrun|]. split; [exact Htr|].
  intros newer older b res Heq.
  destruct (read_before_written_spec new Hrbw newer older b res Heq)
    as (st & Hin).
  split; [exists st; exact Hin|].
  rewrite Hsrc. apply in_or_app. left. apply (in_reads st).
  rewrite Heq. apply in_or_app. right. right. exact Hin.
Qed.

Lemma worker_writes_only_what_it_read_witness :
  status (global (start [0x90; 0x05; 0x03] Eof idle)) = 0x00 /\
  exists r w' new,
    run 1 (start [0x90; 0x05; 0x03] Eof idle) = Exit r w' /\
    trace w' = new ++ trace (start [0x90; 0x05; 0x03] Eof idle) /\
    forall newer older b res,
      new = newer ++ EvWrite b res :: older ->
      (exists st, In (EvRead st b) older) /\
      In b (map u8 (src (os (start [0x90; 0x05; 0x03] Eof idle)))).
Proof.
  split; [reflexivity|].
  apply (worker_writes_only_what_it_read 1
           (start [0x90; 0x05; 0x03] Eof idle)).
  reflexivity.
Defined.

(** * How a worker and the program come to an end *)

(** ** The framing abort *)

(** One turn of the data loop of putmsg at a byte with the top bit set. *)
Lemma putmsg_loop_status (n : nat) (i count s : Z) (rest : list Z)
    (w : World) :
  src (os w) = s :: rest -> 0x80 <= u8 s -> i <= count ->
  exists w', putmsg_loop (S n) i count w = Exit FramingExit w' /\
             src (os w') = rest.
Proof.
  intros Hsrc Hs Hi. pose proof (u8_range s) as Hrs.
  cbn [putmsg_loop]. destruct (Z.leb_spec i count); [|lia].
  unfold bind. rewrite (getbyte_some Data w s rest Hsrc).
  rewrite IS_CHANNEL_top_bit by lia.
  destruct (Z.leb_spec 128 (u8 s)); [|lia].
  eexists. split; reflexivity.
Qed.

(** A byte below 0x08 goes to putmsg; when the byte after it has the top
    bit set, the data loop reads it and the worker leaves there. *)
Lemma run_status_in_data (count0 d s : Z) (rest : list Z) (w : World) :
  src (os w) = d :: s :: rest -> u8 d < 0x08 -> 0x80 <= u8 s ->
  status (global w) = 0x00 -> 1 <= count0 ->
  sink_dev (os w) (nwrites (os w)) = WroteNone ->
  exists w', run count0 w = Exit FramingExit w' /\ src (os w') = rest.
Proof.
  intros Hsrc Hd Hs Hg Hc Hdev.
  pose proof (u8_range d) as Hrd.
  unfold run, bounded. rewrite Hsrc. cbn [List.length run_loop].
  unfold bind at 1. rewrite (getbyte_some Top w d (s :: rest) Hsrc).
  unfold bind at 1. rewrite dispatch_below_8 by lia.
  unfold bind at 1. unfold LOCK at 1.
  unfold bind at 1. unfold bind at 1. unfold putmsg.
  unfold bind at 1.
  destruct (Z.eqb_spec (u8 d) 0) as [Hz|Hz].
  - unfold bind at 1. unfold bind at 1. unfold get_status at 1.
    cbn [global log set_mutex status set_retval set_os mss os trace].
    rewrite Hg. cbn [Z.eqb negb]. unfold bind at 1.
    unfold ret at 1. unfold ret at 1. unfold bounded.
    cbn [os src log set_retval set_os List.length].
    match goal with |- context [putmsg_loop (S ?n) ?i ?c ?w0] =>
      destruct (putmsg_loop_status n i c s rest w0) as (w' & Hl & Hrest);
      [reflexivity|exact Hs|lia|] end.
    rewrite Hl. exists w'. auto.
  - unfold bind at 1. unfold bind at 1. unfold bind at 1.
    unfold get_status at 1.
    cbn [global log set_mutex status set_retval set_os mss os trace].
    rewrite Hg. cbn [Z.eqb negb]. unfold bind at 1. unfold ret at 1.
    rewrite putbyte_unfold. cbv zeta.
    cbn [os log set_retval set_os sink_dev nwrites]. rewrite Hdev.
    unfold ret at 1. unfold bounded.
    cbn [os src log set_retval set_os List.length written].
    match goal with |- context [putmsg_loop (S ?n) ?i ?c ?w0] =>
      destruct (putmsg_loop_status n i c s rest w0) as (w' & Hl & Hrest);
      [reflexivity|exact Hs|lia|] end.
    rewrite Hl. exists w'. auto.
Qed.

(** C6, as amended: a worker that starts with both mutexes free comes to
    an end, and it ends with the framing error, retval -1 and EINVAL,
    only when the data loop of putmsg has read a byte with the top bit
    set, and whenever that loop has read a status byte that is not a
    real-time byte (0x80 to 0xF7).  A worker whose input holds data bytes
    only never ends with the framing error, whatever its status.  The
    framing error does occur: with global.status 0x00, a count of 1 or
    more and a first write that returns 0, an input that starts with a
    byte below 0x08 and then a status byte 0x80 to 0xF7 ends the worker
    with it. *)
Theorem framing_exit_condition (count0 : Z) (w : World) :
  lock (global w) = false -> lock_rt (global w) = false ->
  exists r w' new,
    run count0 w = Exit r w' /\
    trace w' = new ++ trace w /\
    (r = FramingExit ->
     (exists b, 0x80 <= b /\ In (EvRead Data b) new) /\
     io (mss w') = mkIO (-1) EINVAL /\ done (mss w') = true) /\
    ((exists b, 0x80 <= b <= 0xF7 /\ In (EvRead Data b) new) ->
     r = FramingExit) /\
    (Forall (fun b => u8 b < 0x80) (src (os w)) -> r <> FramingExit) /\
    (forall d s rest,
       src (os w) = d :: s :: rest ->
       u8 d < 0x08 -> 0x80 <= u8 s <= 0xF7 ->
       status (global w) = 0x00 -> 1 <= count0 ->
       sink_dev (os w) (nwrites (os w)) = WroteNone ->
       r = FramingExit /\ src (os w') = rest).
Proof.
  intros _ _.
  destruct (run_exits count0 w) as (r & w' & Hrun).
  pose proof (framing_run count0 w) as Hf. rewrite Hrun in Hf.
  pose proof (reads_run count0 w) as Hrd. rewrite Hrun in Hrd.
  destruct Hf as (new & Htr & Hiff & Hio).
  destruct Hrd as (_ & new' & Htr' & Hin).
  assert (new' = new) as -> by (apply (app_inv_tail (trace w)); congruence).
  exists r, w', new. split; [exact Hrun|]. split; [exact Htr|].
  split; [|split; [|split]].
  - intros Hr. split; [apply existsb_status_in_data, Hiff, Hr|].
    apply Hio, Hr.
  - intros (b & Hb & Hread). apply Hiff, existsb_status_in_data.
    exists b. split; [lia|exact Hread].
  - intros Hdata Hr.
    apply Hiff, existsb_status_in_data in Hr. destruct Hr as (b & Hb & Hread).
    apply Hin, in_map_iff in Hread. destruct Hread as (x & Hx & Hsrc).
    rewrite Forall_forall in Hdata. apply Hdata in Hsrc. lia.
  - intros d s rest Hsrc Hd Hs Hg Hc Hdev.
    destruct (run_status_in_data count0 d s rest w Hsrc Hd
                ltac:(lia) Hg Hc Hdev) as (w'' & Hrun' & Hrest).
    rewrite Hrun in Hrun'. inversion Hrun'; subst. auto.
Qed.

Lemma framing_exit_condition_witness :
  lock (global (start [0x05; 0x90; 0x3C] Eof idle)) = false /\
  lock_rt (global (start [0x05; 0x90; 0x3C] Eof idle)) = false /\
  exists w',
    run 1 (start [0x05; 0x90; 0x3C] Eof idle) = Exit FramingExit w' /\
    src (os w') = [0x3C] /\
    io (mss w') = mkIO (-1) EINVAL /\ done (mss w') = true.
Proof.
  split; [reflexivity|]. split; [reflexivity|].
  destruct (framing_exit_condition 1 (start [0x05; 0x90; 0x3C] Eof idle)
              eq_refl eq_refl)
    as (r & w' & new & Hrun & _ & Honly & _ & _ & Hdoes).
  assert (H1 : u8 0x05 < 0x08) by reflexivity.
  assert (H2 : 0x80 <= u8 0x90 <= 0xF7) by (split; vm_compute; discriminate).
  assert (H3 : 1 <= 1) by lia.
  destruct (Hdoes 0x05 0x90 [0x3C] eq_refl H1 H2 eq_refl H3 eq_refl)
    as [Hr Hrest].
  subst r. destruct (Honly eq_refl) as (_ & Hio & Hdone).
  exists w'. auto.
Defined.

(** ** The end of the input *)

(** A read that gives nothing, at whichever [getbyte]. *)
Lemma getbyte_nothing (st : site) (w : World) :
  src (os w) = [] ->
  exists w',
    getbyte st w = Exit ReadExit w' /\
    done (mss w') = true /\
    io (mss w') = match src_end (os w) with
                  | Eof => mkIO 0 (errno (os w))
                  | ReadErr en => mkIO (-1) en
                  end /\
    sink (os w') = sink (os w).
Proof.
  intros Hsrc. destruct (src_end (os w)) as [|en] eqn:Hend.
  - rewrite (getbyte_eof st w Hsrc Hend). eexists. split; [reflexivity|].
    repeat split.
  - rewrite (getbyte_err st w en Hsrc Hend). eexists. split; [reflexivity|].
    repeat split.
Qed.

(** Bytes from 0x08 on, each taken for a real-time byte, on a sink whose
    writes return 0: the loop of run goes through all of them and leaves
    at the read after the last. *)
Lemma run_loop_to_the_end (bytes : list Z) :
  forall (fuel : nat) (s c : Z) (w : World),
    src (os w) = bytes ->
    Forall (fun b => 8 <= u8 b) bytes ->
    (forall n, sink_dev (os w) n = WroteNone) ->
    (List.length bytes < fuel)%nat ->
    exists w', run_loop fuel s c w = Exit ReadExit w'.
Proof.
  induction bytes as [|b rest IH]; intros fuel s c w Hsrc Hall Hdev Hfuel.
  - destruct fuel as [|fuel]; [simpl in Hfuel; lia|].
    cbn [run_loop]. unfold bind at 1.
    destruct (getbyte_nothing Top w Hsrc) as (w' & Hg & _). rewrite Hg.
    exists w'. reflexivity.
  - destruct fuel as [|fuel]; [simpl in Hfuel; lia|].
    inversion Hall as [|? ? Hb Hrest]; subst.
    pose proof (u8_range b) as Hrange.
    cbn [run_loop]. unfold bind at 1.
    rewrite (getbyte_some Top w b rest Hsrc).
    unfold bind at 1. rewrite dispatch_from_8 by lia.
    unfold bind at 1. unfold realtime. unfold bind at 1. unfold LOCK at 1.
    unfold bind at 1.
    match goal with |- context [putbyte (u8 b) ?w1] =>
      rewrite (putbyte_unfold (u8 b) w1) end.
    cbv zeta. cbn [os log set_retval set_os sink_dev nwrites].
    rewrite Hdev. unfold UNLOCK at 1. unfold ret at 1.
    cbn [fst snd].
    apply IH; auto.
    simpl in Hfuel. lia.
Qed.

(** C8: a read that reports the end of the input ends the worker at that
    getbyte: done is set and the recorded status is retval 0 with the
    errno the worker had, which is the status of a freshly initialised
    stream when errno was 0; a failing read is recorded apart from it,
    as retval -1 with the errno of the failure.  So a worker that starts
    with both mutexes free and an empty input ends at its first read,
    nothing written; a worker that goes through its whole input (bytes
    from 0x08 on, writes that return 0) ends at the read after the last
    byte; and every worker that ends at a read has used up its input and
    carries the status told above. *)
Theorem end_of_input_ends_worker (count0 : Z) (w : World) :
  lock (global w) = false -> lock_rt (global w) = false ->
  (forall st w0,
     src (os w0) = [] ->
     exists w1,
       getbyte st w0 = Exit ReadExit w1 /\
       done (mss w1) = true /\
       io (mss w1) = match src_end (os w0) with
                     | Eof => mkIO 0 (errno (os w0))
                     | ReadErr en => mkIO (-1) en
                     end /\
       sink (os w1) = sink (os w0)) /\
  exists r w',
    run count0 w = Exit r w' /\
    (r = ReadExit ->
     src (os w') = [] /\
     done (mss w') = true /\
     io (mss w') = match src_end (os w) with
                   | Eof => mkIO 0 (errno (os w))
                   | ReadErr en => mkIO (-1) en
                   end) /\
    (src (os w) = [] ->
     r = ReadExit /\ sink (os w') = sink (os w) /\ trace w' = trace w) /\
    (Forall (fun b => 8 <= u8 b) (src (os w)) ->
     (forall n, sink_dev (os w) n = WroteNone) ->
     r = ReadExit /\ sink (os w') = sink (os w)).
Proof.
  intros _ _. split; [exact getbyte_nothing|].
  destruct (run_exits count0 w) as (r & w' & Hrun).
  pose proof (read_end_run count0 w) as Hend. rewrite Hrun in Hend.
  exists r, w'. split; [exact Hrun|]. split; [exact Hend|]. split.
  - intros Hsrc. revert Hrun. unfold run, bounded. rewrite Hsrc.
    cbn [List.length run_loop]. unfold bind at 1.
    destruct (src_end (os w)) as [|en] eqn:He.
    + rewrite (getbyte_eof Top w Hsrc He). intros Hrun.
      inversion Hrun; subst. repeat split.
    + rewrite (getbyte_err Top w en Hsrc He). intros Hrun.
      inversion Hrun; subst. repeat split.
  - intros Hall Hdev.
    destruct (run_loop_to_the_end (src (os w)) (S (List.length (src (os w))))
                0x00 count0 w eq_refl Hall Hdev) as (w'' & Hrun'); [lia|].
    unfold run, bounded in Hrun. rewrite Hrun in Hrun'.
    inversion Hrun'; subst. split; [reflexivity|].
    pose proof (wire_run count0 w) as Hw. unfold run, bounded in Hw.
    rewrite Hrun in Hw.
    destruct Hw as [Hw|(b & _ & Hr & _)]; [exact Hw|discriminate].
Qed.

Lemma end_of_input_ends_worker_witness :
  lock (global (start [0xF8; 0xFA] Eof idle)) = false /\
  lock_rt (global (start [0xF8; 0xFA] Eof idle)) = false /\
  exists w',
    run 0 (start [0xF8; 0xFA] Eof idle) = Exit ReadExit w' /\
    src (os w') = [] /\ sink (os w') = [] /\
    done (mss w') = true /\ io (mss w') = mkIO 0 0.
Proof.
  split; [reflexivity|]. split; [reflexivity|].
  destruct (end_of_input_ends_worker 0 (start [0xF8; 0xFA] Eof idle)
              eq_refl eq_refl)
    as (_ & r & w' & Hrun & Hio & _ & Hall).
  destruct Hall as [Hr Hsink].
  { repeat constructor; vm_compute; discriminate. }
  { reflexivity. }
  subst r. destruct (Hio eq_refl) as (Hsrc & Hdone & Hrec).
  exists w'. auto.
Defined.

(** ** The exit status of [main] *)

(** C9, at the command line merge in.mid out.mid with both files in
    place: main opens in.mid and out.mid, goes on to argv[argc], the null
    pointer, which open refuses, and ends with exit(1) before any worker
    is launched; what the workers would have recorded plays no part.
    With an open that refuses the null pointer no command line launches
    a worker, and the exit status is never 0. *)
Theorem exit_status_is_never_zero
    (open : option string -> oflag -> Z) (fates : nat -> fate) :
  (forall fl, open None fl < 0) ->
  main open ["merge"; "in.mid"; "out.mid"]%string fates = Some 1 /\
  forall argv,
    main open argv fates <> Some 0 /\
    forall streams out gfd,
      main_startup open argv <> Started streams out gfd.
Proof.
  intros Hnull. split.
  - unfold main, main_startup, arguments.
    rewrite (init_streams_few open _ Hnull
               (map Some ["in.mid"; "out.mid"]%string) 1 [] 0 (-1));
      [reflexivity|lia|unfold MAX_STREAMS; simpl; lia].
  - intros argv. split.
    + destruct (main_never_launches open argv fates Hnull) as [H|H];
        rewrite H; discriminate.
    + intros streams out gfd. unfold main_startup, arguments.
      destruct argv as [|prog rest]; [discriminate|].
      pose proof (init_streams_null open
                    (Z.of_nat (List.length (prog :: rest)))
                    Hnull (map Some rest) 1 [] 0 (-1)) as H.
      intros Heq. rewrite Heq in H. exact H.
Qed.

Lemma exit_status_is_never_zero_witness :
  (forall fl, open_names None fl < 0) /\
  (forall n fl, 0 <= open_names (Some n) fl) /\
  main open_names ["merge"; "in.mid"; "out.mid"]%string
       (fun _ => fate_of (run 0 (start [0xF8; 0xFA] Eof idle))) = Some 1.
Proof.
  assert (H1 : forall fl, open_names None fl < 0) by (intros fl; reflexivity).
  split; [exact H1|]. split; [intros n fl; discriminate|].
  apply (exit_status_is_never_zero open_names
           (fun _ => fate_of (run 0 (start [0xF8; 0xFA] Eof idle))) H1).
Defined.
